(** * evaluation/eval.py: the evaluation driver

    A shallow embedding of [main] of [src/evaluation/eval.py].  The driver
    is orchestration code: it validates its arguments, loads a tokenizer and
    a model from the hub, creates the output directory and runs the
    requested tasks one after the other.  Everything it calls (the hub, the
    file system, the clock, the task registry, the tasks) is a collaborator
    outside the file; the collaborators are gathered in the record
    [Externals] and the driver is a program in an error-and-state monad
    over the collaborators' world that logs every call it makes. *)

From Stdlib Require Import String List ZArith Bool Lia.
Import ListNotations.
Open Scope string_scope.
Open Scope list_scope.

(** ** Python values and objects *)

(** Exceptions.  [ValueError] is the class the driver raises itself; any
    other class a collaborator may raise is [OtherError] with its name. *)
Inductive exn : Type :=
| ValueError (msg : string)
| OtherError (cls : string).

Inductive result (A : Type) : Type :=
| Ok (a : A)
| Raise (e : exn).
Arguments Ok {A} a.
Arguments Raise {A} e.

Definition is_ok {A} (r : result A) : bool :=
  match r with Ok _ => true | Raise _ => false end.

Definition raised {A} (r : result A) : option exn :=
  match r with Ok _ => None | Raise e => Some e end.

(** A dynamically typed attribute value (what [config.pad_token_id] may hold). *)
Inductive PyVal : Type :=
| PyNone
| PyInt (z : Z)
| PyStr (s : string).

(** [a or b] for an [Optional[str]] [a] and a string [b]: [None] and the
    empty string are falsy. *)
Definition py_or (a : option string) (b : string) : string :=
  match a with
  | Some s => if String.eqb s "" then b else s
  | None => b
  end.

(** [x in l] for a list of strings. *)
Definition py_in (x : string) (l : list string) : bool :=
  existsb (String.eqb x) l.

(** [class EvaluationArguments] (lines 14-33). *)
Record EvaluationArguments : Type := {
  model_name_or_path : string;
  eval_tasks : list string;
  config_name : option string;
  tokenizer_name : option string;
  tag : option string;
  english_only : option bool;
  data_dir : option string
}.

(** The fields of [transformers.TrainingArguments] that [main] reads. *)
Record TrainingArguments : Type := {
  device : string;
  output_dir : string;
  seed : Z
}.

(** The attributes of a tokenizer that [main] reads or writes; [vocab] is
    the token table, whose length is [len(tokenizer)] and in which the
    position of a token is its id. *)
Record Tokenizer : Type := {
  eos_token : option string;
  pad_token : option string;
  padding_side : string;
  vocab : list string
}.

Definition tokenizer_len (t : Tokenizer) : nat := length (vocab t).

Fixpoint index_of (s : string) (l : list string) : option Z :=
  match l with
  | [] => None
  | x :: r => if String.eqb s x then Some 0%Z
              else option_map Z.succ (index_of s r)
  end.

(** [tokenizer.pad_token_id]: the id of the pad token, [None] without one. *)
Definition pad_token_id_of (t : Tokenizer) : PyVal :=
  match pad_token t with
  | None => PyNone
  | Some s => match index_of s (vocab t) with
              | Some i => PyInt i
              | None => PyNone
              end
  end.

Inductive ModelType : Type :=
| AutoModelForSeq2SeqLM
| AutoModelForCausalLM.

Record ModelConfig : Type := {
  pad_token_id : PyVal;
  eos_token_id : PyVal
}.

(** The attributes of a model that [main] reads or writes. *)
Record Model : Type := {
  model_class : ModelType;
  config : ModelConfig;
  num_embeddings : nat
}.

(** The two objects every task holds a reference to. *)
Record Shared : Type := {
  model : Model;
  tokenizer : Tokenizer
}.

(** ** The collaborators *)

(** Every function the driver calls and does not define.  [World] is the
    state they live in (file system, clock, hub, random generators, logs).
    A call returns a result, or raises, and leaves a new world.

    [parse_args_into_dataclasses] stands for lines 37-38, [torch_device]
    for [torch.device(...)], [from_pretrained] for [MODEL_TYPE.from_pretrained]
    with its [pad_token_id] keyword, [datetime_now_strftime] for
    [datetime.now().strftime(...)], [from_task_name] for
    [AutoTask.from_task_name].  [os_path_isdir] is not called by the driver;
    it is there to state what [os_makedirs] promises.

    [model.resize_token_embeddings] changes the model it is called on, so it
    gives the model back; [model.to] leaves the attributes above alone.  A
    task is handed references to the model and the tokenizer, so the calls
    into the task registry and into a task take the two objects and give
    them back as the task left them. *)
Record Externals : Type := {
  World : Type;
  Device : Type;
  Logger : Type;
  Task : Type;
  parse_args_into_dataclasses :
    World -> result (EvaluationArguments * TrainingArguments) * World;
  os_path_exists : string -> World -> bool;
  os_path_isdir : string -> World -> bool;
  os_path_join : string -> string -> string;
  os_makedirs : string -> bool -> World -> result unit * World;
  torch_device : string -> World -> result Device * World;
  get_logger : World -> result Logger * World;
  logger_info : Logger -> string -> World -> result unit * World;
  AutoTokenizer_from_pretrained : string -> World -> result Tokenizer * World;
  from_pretrained :
    ModelType -> string -> option string -> World -> result Model * World;
  resize_token_embeddings : Model -> nat -> World -> result Model * World;
  model_to : Model -> Device -> World -> result unit * World;
  datetime_now_strftime : string -> World -> result string * World;
  from_task_name :
    string -> Shared -> Device -> option bool -> option string ->
    World -> result (Task * Shared) * World;
  set_seed : Z -> World -> result unit * World;
  evaluate : Task -> Shared -> World -> result Shared * World;
  save_metrics :
    Task -> Shared -> string -> Logger -> World -> result Shared * World
}.

(** The literals of the source. *)
Definition jigsaw : string := "jigsaw_toxicity_pred".

Definition msg_no_task : string := "Must provide at least one eval task!".

(** A backslash at the end of a line inside a string literal joins the next
    line to it, indentation included. *)
Definition msg_no_data_dir : string :=
  "Must provide data path for jigsaw_toxicity_pred. Data needs to be                 downloaded manually from Kaggle and saved into a local directory.".

Definition msg_data_dir_missing : string :=
  "Data path for jigsaw_toxicity_pred does not exist. Data needs to be                 downloaded manually from Kaggle and saved into a local directory.".

Definition seq2seq_names : list string := ["bigscience/T0_3B"; "bigscience/T0"].

Definition tag_format : string := "%y%m%d_%H%M%S".

(** Lines 66-69. *)
Definition MODEL_TYPE (name : string) : ModelType :=
  if py_in name seq2seq_names then AutoModelForSeq2SeqLM
  else AutoModelForCausalLM.

Section Driver.

Variable X : Externals.

(** ** The log of calls *)

Inductive Call : Type :=
| C_parse_args
| C_os_path_exists (p : string)
| C_torch_device (d : string)
| C_get_logger
| C_logger_info (lg : Logger X) (msg : string)
| C_AutoTokenizer_from_pretrained (name : string)
| C_from_pretrained (ty : ModelType) (name : string) (pad : option string)
| C_resize_token_embeddings (m : Model) (n : nat)
| C_model_to (m : Model) (d : Device X)
| C_now_strftime (fmt : string)
| C_os_makedirs (p : string) (exist_ok : bool)
| C_from_task_name (name : string) (m : Model) (t : Tokenizer)
    (d : Device X) (english : option bool) (dir : option string)
| C_set_seed (z : Z)
| C_evaluate (t : Task X)
| C_save_metrics (t : Task X) (dir : string) (lg : Logger X).

(** One call: what was called, the world before and after, and the
    exception it raised, if any. *)
Record Event : Type := {
  ev_call : Call;
  ev_pre : World X;
  ev_exn : option exn;
  ev_post : World X
}.

(** ** The monad: errors, the world, and the calls made *)

Definition M (A : Type) : Type :=
  World X -> result A * World X * list Event.

Definition ret {A} (a : A) : M A := fun w => (Ok a, w, []).

Definition raise {A} (e : exn) : M A := fun w => (Raise e, w, []).

Definition bind {A B} (m : M A) (k : A -> M B) : M B :=
  fun w =>
    match m w with
    | (Ok a, w1, l1) =>
        match k a w1 with
        | (r, w2, l2) => (r, w2, l1 ++ l2)
        end
    | (Raise e, w1, l1) => (Raise e, w1, l1)
    end.

Definition call {A} (c : Call) (f : World X -> result A * World X) : M A :=
  fun w =>
    match f w with
    | (r, w') =>
        (r, w', [{| ev_call := c; ev_pre := w; ev_exn := raised r; ev_post := w' |}])
    end.

Notation "x <- m ;; k" := (bind m (fun x => k))
  (at level 61, m at next level, right associativity).
Notation "m ;;; k" := (bind m (fun _ => k))
  (at level 61, right associativity).

(** ** [main], block by block *)

(** Lines 40-53: the checks on the arguments. *)
Definition check_args (eval_args : EvaluationArguments) : M unit :=
  match eval_tasks eval_args with
  | [] => raise (ValueError msg_no_task)
  | _ :: _ =>
      if py_in jigsaw (eval_tasks eval_args) then
        match data_dir eval_args with
        | None => raise (ValueError msg_no_data_dir)
        | Some d =>
            found <- call (C_os_path_exists d)
                       (fun w => (Ok (os_path_exists X d w), w)) ;;
            if negb found then raise (ValueError msg_data_dir_missing)
            else ret tt
        end
      else ret tt
  end.

(** Lines 61-76: tokenizer and model. *)
Definition load (eval_args : EvaluationArguments) (dev : Device X)
    (logger : Logger X) : M Shared :=
  call (C_logger_info logger "Loading model...")
       (logger_info X logger "Loading model...") ;;;
  let tok_name := py_or (tokenizer_name eval_args) (model_name_or_path eval_args) in
  tok0 <- call (C_AutoTokenizer_from_pretrained tok_name)
            (AutoTokenizer_from_pretrained X tok_name) ;;
  let tok1 := {| eos_token := eos_token tok0;
                 pad_token := eos_token tok0;
                 padding_side := padding_side tok0;
                 vocab := vocab tok0 |} in
  let tok2 := {| eos_token := eos_token tok1;
                 pad_token := pad_token tok1;
                 padding_side := "left";
                 vocab := vocab tok1 |} in
  let ty := MODEL_TYPE (model_name_or_path eval_args) in
  m0 <- call (C_from_pretrained ty (model_name_or_path eval_args) (eos_token tok2))
          (from_pretrained X ty (model_name_or_path eval_args) (eos_token tok2)) ;;
  let m1 := {| model_class := model_class m0;
               config := {| pad_token_id := eos_token_id (config m0);
                            eos_token_id := eos_token_id (config m0) |};
               num_embeddings := num_embeddings m0 |} in
  m2 <- call (C_resize_token_embeddings m1 (tokenizer_len tok2))
          (resize_token_embeddings X m1 (tokenizer_len tok2)) ;;
  call (C_model_to m2 dev) (model_to X m2 dev) ;;;
  ret {| model := m2; tokenizer := tok2 |}.

(** Line 79: [eval_args.tag or datetime.now().strftime(...)]. *)
Definition resolve_tag (eval_args : EvaluationArguments) : M string :=
  match tag eval_args with
  | Some s =>
      if String.eqb s "" then
        call (C_now_strftime tag_format) (datetime_now_strftime X tag_format)
      else ret s
  | None =>
      call (C_now_strftime tag_format) (datetime_now_strftime X tag_format)
  end.

(** Lines 79-81: the output directory. *)
Definition prepare_output (eval_args : EvaluationArguments)
    (train_args : TrainingArguments) : M string :=
  tg <- resolve_tag eval_args ;;
  let out := os_path_join X (output_dir train_args) tg in
  call (C_os_makedirs out true) (os_makedirs X out true) ;;;
  ret out.

Section Loop.

Variable eval_args : EvaluationArguments.
Variable train_args : TrainingArguments.
Variable dev : Device X.
Variable logger : Logger X.
Variable out : string.

Definition benchmarking (eval_task : string) : string :=
  ("Benchmarking " ++ eval_task ++ "...")%string.

(** Lines 84-95: the body of the loop. *)
Definition run_task (eval_task : string) (sh : Shared) : M Shared :=
  call (C_logger_info logger (benchmarking eval_task))
       (logger_info X logger (benchmarking eval_task)) ;;;
  r <- call (C_from_task_name eval_task (model sh) (tokenizer sh) dev
               (english_only eval_args) (data_dir eval_args))
         (from_task_name X eval_task sh dev
            (english_only eval_args) (data_dir eval_args)) ;;
  let task := fst r in
  let sh1 := snd r in
  call (C_set_seed (seed train_args)) (set_seed X (seed train_args)) ;;;
  sh2 <- call (C_evaluate task) (evaluate X task sh1) ;;
  call (C_save_metrics task out logger) (save_metrics X task sh2 out logger).

(** Line 83: the loop over [eval_args.eval_tasks]. *)
Fixpoint dispatch (tasks : list string) (sh : Shared) : M Shared :=
  match tasks with
  | [] => ret sh
  | eval_task :: rest =>
      sh' <- run_task eval_task sh ;;
      dispatch rest sh'
  end.

End Loop.

(** Lines 40-95: [main] once the arguments are parsed. *)
Definition main_after_parse (eval_args : EvaluationArguments)
    (train_args : TrainingArguments) : M unit :=
  check_args eval_args ;;;
  dev <- call (C_torch_device (device train_args))
           (torch_device X (device train_args)) ;;
  logger <- call C_get_logger (get_logger X) ;;
  call (C_logger_info logger ("Beginning evaluation on device " ++ device train_args)%string)
       (logger_info X logger ("Beginning evaluation on device " ++ device train_args)%string) ;;;
  sh <- load eval_args dev logger ;;
  out <- prepare_output eval_args train_args ;;
  dispatch eval_args train_args dev logger out (eval_tasks eval_args) sh ;;;
  ret tt.

(** Lines 36-95. *)
Definition main : M unit :=
  args <- call C_parse_args (parse_args_into_dataclasses X) ;;
  main_after_parse (fst args) (snd args).

End Driver.

Arguments C_parse_args {X}.
Arguments C_os_path_exists {X} p.
Arguments C_torch_device {X} d.
Arguments C_get_logger {X}.
Arguments C_logger_info {X} lg msg.
Arguments C_AutoTokenizer_from_pretrained {X} name.
Arguments C_from_pretrained {X} ty name pad.
Arguments C_resize_token_embeddings {X} m n.
Arguments C_model_to {X} m d.
Arguments C_now_strftime {X} fmt.
Arguments C_os_makedirs {X} p exist_ok.
Arguments C_from_task_name {X} name m t d english dir.
Arguments C_set_seed {X} z.
Arguments C_evaluate {X} t.
Arguments C_save_metrics {X} t dir lg.
Arguments ev_call {X} e.
Arguments ev_pre {X} e.
Arguments ev_exn {X} e.
Arguments ev_post {X} e.
Arguments Build_Event {X} ev_call ev_pre ev_exn ev_post.
Arguments ret {X A} a.
Arguments raise {X A} e.
Arguments bind {X A B} m k.
Arguments call {X A} c f.

(** ** Vocabulary of the statements *)

Section Vocabulary.

Variable X : Externals.

(** Every call logged by a run of [m] satisfies [P]. *)
Definition all_calls {A} (P : Event X -> Prop) (m : M X A) : Prop :=
  forall w r w' evs, m w = (r, w', evs) -> Forall P evs.

(** An exception logged in a run is the run's last call, its outcome and
    its final world. *)
Definition uncaught {A} (m : M X A) : Prop :=
  forall w r w' evs, m w = (r, w', evs) ->
  forall l1 e l2 x, evs = l1 ++ e :: l2 -> ev_exn e = Some x ->
  l2 = [] /\ r = Raise x /\ w' = ev_post e.

(** [data_dir] is given and exists. *)
Definition data_dir_usable (eval_args : EvaluationArguments) (w : World X)
  : bool :=
  match data_dir eval_args with
  | None => false
  | Some d => os_path_exists X d w
  end.

Definition exists_event (d : string) (w : World X) : Event X :=
  {| ev_call := C_os_path_exists d; ev_pre := w; ev_exn := None; ev_post := w |}.

(** The calls of one turn of the loop for [eval_task], in order: the
    progress line, the registry, the seed, the evaluation, the metrics. *)
Definition steps (eval_args : EvaluationArguments)
    (train_args : TrainingArguments) (dev : Device X) (logger : Logger X)
    (out : string) (eval_task : string) (sh : Shared) (task : Task X)
  : list (Call X) :=
  [ C_logger_info logger (benchmarking eval_task);
    C_from_task_name eval_task (model sh) (tokenizer sh) dev
      (english_only eval_args) (data_dir eval_args);
    C_set_seed (seed train_args);
    C_evaluate task;
    C_save_metrics task out logger ].

(** The calls of one turn: all five when the turn completes, and the calls
    up to the one that raised when it does not.  No task object exists
    before the registry has returned one. *)
Inductive turn (eval_args : EvaluationArguments)
    (train_args : TrainingArguments) (dev : Device X) (logger : Logger X)
    (out : string) (eval_task : string) : list (Call X) -> bool -> Prop :=
| turn_done sh task :
    turn eval_args train_args dev logger out eval_task
      (steps eval_args train_args dev logger out eval_task sh task) true
| turn_cut_at_log :
    turn eval_args train_args dev logger out eval_task
      [C_logger_info logger (benchmarking eval_task)] false
| turn_cut_at_registry sh :
    turn eval_args train_args dev logger out eval_task
      [C_logger_info logger (benchmarking eval_task);
       C_from_task_name eval_task (model sh) (tokenizer sh) dev
         (english_only eval_args) (data_dir eval_args)] false
| turn_cut_later sh task n :
    3 <= n <= 5 ->
    turn eval_args train_args dev logger out eval_task
      (firstn n (steps eval_args train_args dev logger out eval_task sh task))
      false.

(** The calls of the whole loop: the turns of the tasks, one after the
    other in the order of the list, up to the end or to the first turn that
    is cut. *)
Inductive turns (eval_args : EvaluationArguments)
    (train_args : TrainingArguments) (dev : Device X) (logger : Logger X)
    (out : string) : list string -> list (Call X) -> bool -> Prop :=
| turns_nil : turns eval_args train_args dev logger out [] [] true
| turns_next t ts c cs b :
    turn eval_args train_args dev logger out t c true ->
    turns eval_args train_args dev logger out ts cs b ->
    turns eval_args train_args dev logger out (t :: ts) (c ++ cs) b
| turns_cut t ts c :
    turn eval_args train_args dev logger out t c false ->
    turns eval_args train_args dev logger out (t :: ts) c false.

(** Every [evaluate] in a log comes right after a [set_seed z] that
    returned, and starts in the world that [set_seed] left. *)
Definition seeded_evaluations (z : Z) (l : list (Event X)) : Prop :=
  forall l1 e l2 task,
    l = l1 ++ e :: l2 -> ev_call e = C_evaluate task ->
    exists l0 e0,
      l1 = l0 ++ [e0] /\ ev_call e0 = C_set_seed z /\ ev_exn e0 = None /\
      set_seed X z (ev_pre e0) = (Ok tt, ev_pre e).

(** The log of every run of [m] satisfies [Q]. *)
Definition all_logs {A} (Q : list (Event X) -> Prop) (m : M X A) : Prop :=
  forall w r w' evs, m w = (r, w', evs) -> Q evs.

(** A property of logs that holds of two logs put end to end when it holds
    of each. *)
Definition local (Q : list (Event X) -> Prop) : Prop :=
  Q [] /\ forall l l', Q l -> Q l' -> Q (l ++ l').

Definition makes_dir (c : Call X) : bool :=
  match c with
  | C_os_makedirs _ _ => true
  | _ => false
  end.

(** The calls made on behalf of a task. *)
Definition task_call (c : Call X) : bool :=
  match c with
  | C_from_task_name _ _ _ _ _ _ => true
  | C_set_seed _ => true
  | C_evaluate _ => true
  | C_save_metrics _ _ _ => true
  | _ => false
  end.

(** A call that neither makes a directory nor is made for a task. *)
Definition quiet (e : Event X) : Prop :=
  makes_dir (ev_call e) = false /\ task_call (ev_call e) = false.

Definition dirs_made (l : list (Event X)) : nat :=
  length (filter (fun e => makes_dir (ev_call e)) l).

(** The tag comes from the clock: the call before [e] in the log asked the
    time in the format of the source, and [p] is the output root joined with
    the string it returned. *)
Definition stamped (train_args : TrainingArguments) (l1 : list (Event X))
    (e : Event X) (p : string) : Prop :=
  exists l0 e0 ts,
    l1 = l0 ++ [e0] /\
    ev_call e0 = C_now_strftime tag_format /\
    datetime_now_strftime X tag_format (ev_pre e0) = (Ok ts, ev_pre e) /\
    p = os_path_join X (output_dir train_args) ts.

(** Every [os.makedirs] in a log is called with [exist_ok=True], on the
    output root joined with the tag: the tag given when it is a non-empty
    string, a time stamp otherwise. *)
Definition dirs_named (eval_args : EvaluationArguments)
    (train_args : TrainingArguments) (l : list (Event X)) : Prop :=
  forall l1 e l2 p ok,
    l = l1 ++ e :: l2 -> ev_call e = C_os_makedirs p ok ->
    ok = true /\
    (exists r, os_makedirs X p true (ev_pre e) = (r, ev_post e) /\
               ev_exn e = raised r) /\
    match tag eval_args with
    | Some t =>
        if String.eqb t "" then stamped train_args l1 e p
        else p = os_path_join X (output_dir train_args) t
    | None => stamped train_args l1 e p
    end.

(** What [os.makedirs] promises with [exist_ok=True]: a path that is
    already a directory is no error. *)
Definition makedirs_contract : Prop :=
  forall p w, os_path_isdir X p w = true ->
              exists w', os_makedirs X p true w = (Ok tt, w').

(** What [resize_token_embeddings] promises: the embedding table has the
    size asked for and the configuration fields above are left alone. *)
Definition resize_contract : Prop :=
  forall m n w m' w',
    resize_token_embeddings X m n w = (Ok m', w') ->
    config m' = config m /\ num_embeddings m' = n.

End Vocabulary.

Arguments all_calls {X A} P m.
Arguments uncaught {X A} m.
Arguments all_logs {X A} Q m.
Arguments local {X} Q.
Arguments makes_dir {X} c.
Arguments task_call {X} c.
Arguments dirs_made {X} l.
Arguments quiet {X} e.

(** ** Vocabulary of the statements on the rest of [main] *)

(** The arguments with another [config_name]. *)
Definition with_config_name (eval_args : EvaluationArguments)
    (c : option string) : EvaluationArguments :=
  {| model_name_or_path := model_name_or_path eval_args;
     eval_tasks := eval_tasks eval_args;
     config_name := c;
     tokenizer_name := tokenizer_name eval_args;
     tag := tag eval_args;
     english_only := english_only eval_args;
     data_dir := data_dir eval_args |}.

Section MoreVocabulary.

Variable X : Externals.

(** The arguments [check_args] lets through: a task at least, and a
    [data_dir] that is there when "jigsaw_toxicity_pred" is asked for. *)
Definition acceptable (eval_args : EvaluationArguments) (w : World X) : bool :=
  match eval_tasks eval_args with
  | [] => false
  | _ :: _ =>
      negb (py_in jigsaw (eval_tasks eval_args)) || data_dir_usable X eval_args w
  end.

(** The three exceptions [main] raises itself. *)
Definition check_error (x : exn) : Prop :=
  x = ValueError msg_no_task \/
  x = ValueError msg_no_data_dir \/
  x = ValueError msg_data_dir_missing.

(** A run of [m] that raises has the exception from its last call. *)
Definition blames {A} (m : M X A) : Prop :=
  forall w r w' evs x,
    m w = (r, w', evs) -> r = Raise x ->
    exists l e, evs = l ++ [e] /\ ev_exn e = Some x /\ w' = ev_post e.

(** The number of calls of a kind in a log. *)
Definition count_calls (p : Call X -> bool) (l : list (Event X)) : nat :=
  length (filter (fun e => p (ev_call e)) l).

Definition reads_clock (c : Call X) : bool :=
  match c with
  | C_now_strftime _ => true
  | _ => false
  end.

Definition loads_tokenizer (c : Call X) : bool :=
  match c with
  | C_AutoTokenizer_from_pretrained _ => true
  | _ => false
  end.

Definition loads_model (c : Call X) : bool :=
  match c with
  | C_from_pretrained _ _ _ => true
  | _ => false
  end.

(** The names given to the registry, in the order of the calls. *)
Definition resolved (l : list (Call X)) : list string :=
  flat_map (fun c => match c with
                     | C_from_task_name name _ _ _ _ _ => [name]
                     | _ => []
                     end) l.

(** The calls of a [load] that returns [sh], in order; [m1] is the model
    as it is handed to [resize_token_embeddings]. *)
Definition load_calls (eval_args : EvaluationArguments) (dev : Device X)
    (logger : Logger X) (sh : Shared) (m1 : Model) : list (Call X) :=
  [ C_logger_info logger "Loading model...";
    C_AutoTokenizer_from_pretrained
      (py_or (tokenizer_name eval_args) (model_name_or_path eval_args));
    C_from_pretrained (MODEL_TYPE (model_name_or_path eval_args))
      (model_name_or_path eval_args) (eos_token (tokenizer sh));
    C_resize_token_embeddings m1 (tokenizer_len (tokenizer sh));
    C_model_to (model sh) dev ].

(** The calls that are given the device or the logger. *)
Definition context_call (c : Call X) : bool :=
  match c with
  | C_logger_info _ _ => true
  | C_model_to _ _ => true
  | C_from_task_name _ _ _ _ _ _ => true
  | C_save_metrics _ _ _ => true
  | _ => false
  end.

(** A call that is given a device is given [dev], one that is given a
    logger is given [logger], and the registry is given the English-only
    flag of the arguments. *)
Definition in_context (eval_args : EvaluationArguments) (dev : Device X)
    (logger : Logger X) (e : Event X) : Prop :=
  (forall m d, ev_call e = C_model_to m d -> d = dev) /\
  (forall name m t d english dir,
      ev_call e = C_from_task_name name m t d english dir ->
      d = dev /\ english = english_only eval_args) /\
  (forall lg msg, ev_call e = C_logger_info lg msg -> lg = logger) /\
  (forall t dir lg, ev_call e = C_save_metrics t dir lg -> lg = logger).

(** The calls of the checks that pass. *)
Definition check_calls (eval_args : EvaluationArguments) : list (Call X) :=
  if py_in jigsaw (eval_tasks eval_args) then
    match data_dir eval_args with
    | Some d => [C_os_path_exists d]
    | None => []
    end
  else [].

(** The call that makes up a tag, if one has to be made up. *)
Definition tag_calls (eval_args : EvaluationArguments) : list (Call X) :=
  match tag eval_args with
  | Some t => if String.eqb t "" then [C_now_strftime tag_format] else []
  | None => [C_now_strftime tag_format]
  end.

(** The calls that come after the loader. *)
Definition after_load (c : Call X) : bool :=
  makes_dir c || reads_clock c || task_call c.

(** Line 59: the first line logged. *)
Definition begin_msg (train_args : TrainingArguments) : string :=
  ("Beginning evaluation on device " ++ device train_args)%string.

(** The log of a call that returned. *)
Definition returned (c : Call X) (w w' : World X) : Event X :=
  {| ev_call := c; ev_pre := w; ev_exn := None; ev_post := w' |}.

(** The log of a call that raised. *)
Definition failed (c : Call X) (w : World X) (x : exn) (w' : World X)
  : Event X :=
  {| ev_call := c; ev_pre := w; ev_exn := Some x; ev_post := w' |}.

(** How far a run of [main] got, and what it went through on the way:
    the checks in the world [w], then the device, the logger, the first
    line, the loader, the output directory and the loop, each in the world
    the one before left, up to the first that raised. *)
Definition run_shape (eval_args : EvaluationArguments)
    (train_args : TrainingArguments) (w : World X) (r : result unit)
    (w' : World X) (evs : list (Event X)) : Prop :=
  exists rc lc,
    check_args X eval_args w = (rc, w, lc) /\
    match rc with
    | Raise x => r = Raise x /\ w' = w /\ evs = lc
    | Ok _ =>
    exists rd w2,
      torch_device X (device train_args) w = (rd, w2) /\
      match rd with
      | Raise x =>
          r = Raise x /\ w' = w2 /\
          evs = lc ++ [failed (C_torch_device (device train_args)) w x w2]
      | Ok dev =>
      exists rg w3,
        get_logger X w2 = (rg, w3) /\
        match rg with
        | Raise x =>
            r = Raise x /\ w' = w3 /\
            evs = lc ++ [returned (C_torch_device (device train_args)) w w2;
                         failed C_get_logger w2 x w3]
        | Ok logger =>
        exists rb w4,
          logger_info X logger (begin_msg train_args) w3 = (rb, w4) /\
          match rb with
          | Raise x =>
              r = Raise x /\ w' = w4 /\
              evs = lc ++ [returned (C_torch_device (device train_args)) w w2;
                           returned C_get_logger w2 w3;
                           failed (C_logger_info logger (begin_msg train_args))
                             w3 x w4]
          | Ok _ =>
          let front :=
            lc ++ [returned (C_torch_device (device train_args)) w w2;
                   returned C_get_logger w2 w3;
                   returned (C_logger_info logger (begin_msg train_args)) w3 w4]
          in
          exists rl w5 ll,
            load X eval_args dev logger w4 = (rl, w5, ll) /\
            match rl with
            | Raise x => r = Raise x /\ w' = w5 /\ evs = front ++ ll
            | Ok sh =>
            exists ro w6 lo,
              prepare_output X eval_args train_args w5 = (ro, w6, lo) /\
              match ro with
              | Raise x => r = Raise x /\ w' = w6 /\ evs = front ++ ll ++ lo
              | Ok out =>
              exists rt lt,
                dispatch X eval_args train_args dev logger out
                  (eval_tasks eval_args) sh w6 = (rt, w', lt) /\
                evs = front ++ ll ++ lo ++ lt /\
                r = match rt with Ok _ => Ok tt | Raise x => Raise x end
              end
            end
          end
        end
      end
    end.

End MoreVocabulary.

Arguments blames {X A} m.
Arguments count_calls {X} p l.
Arguments reads_clock {X} c.
Arguments loads_tokenizer {X} c.
Arguments loads_model {X} c.
Arguments resolved {X} l.
Arguments context_call {X} c.
Arguments after_load {X} c.

(** ** Vocabulary of the loop, step by step *)

Section LoopVocabulary.

Variable X : Externals.

(** In a log, every call that [trigger] holds of has a call after it, and
    [next] holds of the two. *)
Definition followed (trigger : Event X -> Prop)
    (next : Event X -> Event X -> Prop) (l : list (Event X)) : Prop :=
  forall l1 e l2,
    l = l1 ++ e :: l2 -> trigger e ->
    exists e1 l3, l2 = e1 :: l3 /\ next e e1.

Definition seeds (c : Call X) : bool :=
  match c with
  | C_set_seed _ => true
  | _ => false
  end.

Definition evaluates (c : Call X) : bool :=
  match c with
  | C_evaluate _ => true
  | _ => false
  end.

(** A call of the registry that returned. *)
Definition registry_returned (e : Event X) : Prop :=
  (exists name m t d english dir,
      ev_call e = C_from_task_name name m t d english dir) /\
  ev_exn e = None.

(** The call after [e] is [set_seed z], made in the world [e] left. *)
Definition then_seed (z : Z) (e e1 : Event X) : Prop :=
  ev_call e1 = C_set_seed z /\ ev_pre e1 = ev_post e.

(** A [set_seed z] that returned. *)
Definition seed_returned (z : Z) (e : Event X) : Prop :=
  ev_call e = C_set_seed z /\ ev_exn e = None.

(** The call after [e] is an [evaluate], made in the world [e] left. *)
Definition then_evaluate (e e1 : Event X) : Prop :=
  (exists task, ev_call e1 = C_evaluate task) /\ ev_pre e1 = ev_post e.

(** The progress line of a task, logged. *)
Definition line_returned (e : Event X) : Prop :=
  (exists lg t, ev_call e = C_logger_info lg (benchmarking t)) /\
  ev_exn e = None.

(** [e] is the progress line of a task and the call after it gives the
    registry that task's name and [dir], in the world [e] left. *)
Definition then_registry (dir : option string) (e e1 : Event X) : Prop :=
  (exists lg t m tk d english,
      ev_call e = C_logger_info lg (benchmarking t) /\
      ev_call e1 = C_from_task_name t m tk d english dir) /\
  ev_pre e1 = ev_post e.

(** The name and the [data_dir] of every call of the registry, in order. *)
Definition registry_args (l : list (Call X)) : list (string * option string) :=
  flat_map (fun c => match c with
                     | C_from_task_name name _ _ _ _ dir => [(name, dir)]
                     | _ => []
                     end) l.

Section Turn.

Variable eval_args : EvaluationArguments.
Variable train_args : TrainingArguments.
Variable dev : Device X.
Variable logger : Logger X.
Variable out : string.

(** One turn of the loop for the task named [t], entered with the model
    and tokenizer [sh] in the world [w]: what each collaborator is called
    with, in which world, and what becomes of what it returns.  The
    registry is given [sh]; the task it returns is the one evaluated and
    the one whose metrics are saved; the model and tokenizer each call
    leaves go to the next; the turn ends with those [save_metrics] left, or
    with the first exception. *)
Inductive turn_of (t : string) (sh : Shared) (w : World X)
  : result Shared -> World X -> list (Event X) -> Prop :=
| turn_returns w1 task sh1 w2 w3 sh2 w4 sh3 w5 :
    logger_info X logger (benchmarking t) w = (Ok tt, w1) ->
    from_task_name X t sh dev (english_only eval_args) (data_dir eval_args) w1
    = (Ok (task, sh1), w2) ->
    set_seed X (seed train_args) w2 = (Ok tt, w3) ->
    evaluate X task sh1 w3 = (Ok sh2, w4) ->
    save_metrics X task sh2 out logger w4 = (Ok sh3, w5) ->
    turn_of t sh w (Ok sh3) w5
      [ returned X (C_logger_info logger (benchmarking t)) w w1;
        returned X (C_from_task_name t (model sh) (tokenizer sh) dev
                      (english_only eval_args) (data_dir eval_args)) w1 w2;
        returned X (C_set_seed (seed train_args)) w2 w3;
        returned X (C_evaluate task) w3 w4;
        returned X (C_save_metrics task out logger) w4 w5 ]
| turn_line_raises x w1 :
    logger_info X logger (benchmarking t) w = (Raise x, w1) ->
    turn_of t sh w (Raise x) w1
      [ failed X (C_logger_info logger (benchmarking t)) w x w1 ]
| turn_registry_raises w1 x w2 :
    logger_info X logger (benchmarking t) w = (Ok tt, w1) ->
    from_task_name X t sh dev (english_only eval_args) (data_dir eval_args) w1
    = (Raise x, w2) ->
    turn_of t sh w (Raise x) w2
      [ returned X (C_logger_info logger (benchmarking t)) w w1;
        failed X (C_from_task_name t (model sh) (tokenizer sh) dev
                    (english_only eval_args) (data_dir eval_args)) w1 x w2 ]
| turn_seed_raises w1 task sh1 w2 x w3 :
    logger_info X logger (benchmarking t) w = (Ok tt, w1) ->
    from_task_name X t sh dev (english_only eval_args) (data_dir eval_args) w1
    = (Ok (task, sh1), w2) ->
    set_seed X (seed train_args) w2 = (Raise x, w3) ->
    turn_of t sh w (Raise x) w3
      [ returned X (C_logger_info logger (benchmarking t)) w w1;
        returned X (C_from_task_name t (model sh) (tokenizer sh) dev
                      (english_only eval_args) (data_dir eval_args)) w1 w2;
        failed X (C_set_seed (seed train_args)) w2 x w3 ]
| turn_evaluate_raises w1 task sh1 w2 w3 x w4 :
    logger_info X logger (benchmarking t) w = (Ok tt, w1) ->
    from_task_name X t sh dev (english_only eval_args) (data_dir eval_args) w1
    = (Ok (task, sh1), w2) ->
    set_seed X (seed train_args) w2 = (Ok tt, w3) ->
    evaluate X task sh1 w3 = (Raise x, w4) ->
    turn_of t sh w (Raise x) w4
      [ returned X (C_logger_info logger (benchmarking t)) w w1;
        returned X (C_from_task_name t (model sh) (tokenizer sh) dev
                      (english_only eval_args) (data_dir eval_args)) w1 w2;
        returned X (C_set_seed (seed train_args)) w2 w3;
        failed X (C_evaluate task) w3 x w4 ]
| turn_save_raises w1 task sh1 w2 w3 sh2 w4 x w5 :
    logger_info X logger (benchmarking t) w = (Ok tt, w1) ->
    from_task_name X t sh dev (english_only eval_args) (data_dir eval_args) w1
    = (Ok (task, sh1), w2) ->
    set_seed X (seed train_args) w2 = (Ok tt, w3) ->
    evaluate X task sh1 w3 = (Ok sh2, w4) ->
    save_metrics X task sh2 out logger w4 = (Raise x, w5) ->
    turn_of t sh w (Raise x) w5
      [ returned X (C_logger_info logger (benchmarking t)) w w1;
        returned X (C_from_task_name t (model sh) (tokenizer sh) dev
                      (english_only eval_args) (data_dir eval_args)) w1 w2;
        returned X (C_set_seed (seed train_args)) w2 w3;
        returned X (C_evaluate task) w3 w4;
        failed X (C_save_metrics task out logger) w4 x w5 ].

(** The loop: the turns of the tasks one after the other in the order of
    the list, each entered with the model, the tokenizer and the world the
    turn before left, up to the end of the list or to the first turn that
    raises. *)
Inductive loop_of : list string -> Shared -> World X
  -> result Shared -> World X -> list (Event X) -> Prop :=
| loop_end sh w : loop_of [] sh w (Ok sh) w []
| loop_next t ts sh w sh1 w1 l1 r w' l2 :
    turn_of t sh w (Ok sh1) w1 l1 ->
    loop_of ts sh1 w1 r w' l2 ->
    loop_of (t :: ts) sh w r w' (l1 ++ l2)
| loop_stops t ts sh w x w1 l1 :
    turn_of t sh w (Raise x) w1 l1 ->
    loop_of (t :: ts) sh w (Raise x) w1 l1.

End Turn.

(** What the loader does once it has the tokenizer [tok0]: the call that
    comes third in its log asks the hub for the model under the class
    chosen from the model's name, under that name, with the tokenizer's
    end-of-sequence token for [pad_token_id], in the world [w2] the
    tokenizer's request left; [rm] and [w3] are what the hub answers. *)
Definition asks_for_model (eval_args : EvaluationArguments) (tok0 : Tokenizer)
    (w2 : World X) (rm : result Model) (w3 : World X) (ll : list (Event X))
  : Prop :=
  from_pretrained X (MODEL_TYPE (model_name_or_path eval_args))
    (model_name_or_path eval_args) (eos_token tok0) w2 = (rm, w3) /\
  nth_error ll 2
  = Some {| ev_call :=
              C_from_pretrained (MODEL_TYPE (model_name_or_path eval_args))
                (model_name_or_path eval_args) (eos_token tok0);
            ev_pre := w2; ev_exn := raised rm; ev_post := w3 |}.

End LoopVocabulary.

Arguments followed {X} trigger next l.
Arguments seeds {X} c.
Arguments evaluates {X} c.
Arguments registry_args {X} l.

(** ** A small world to run the driver in

    One instance of the collaborators, small enough to evaluate: the file
    system is a list of directories, the clock a string, the random
    generator a number; a tokenizer and a model are looked up by name. *)
Module Demo.

Record DemoWorld : Type := {
  dirs : list string;
  clock : string;
  rng : Z;
  lines : list string
}.

Definition with_dirs (w : DemoWorld) (d : list string) : DemoWorld :=
  {| dirs := d; clock := clock w; rng := rng w; lines := lines w |}.

Definition with_rng (w : DemoWorld) (z : Z) : DemoWorld :=
  {| dirs := dirs w; clock := clock w; rng := z; lines := lines w |}.

Definition with_line (w : DemoWorld) (l : string) : DemoWorld :=
  {| dirs := dirs w; clock := clock w; rng := rng w; lines := lines w ++ [l] |}.

Definition ends_with_slash (a : string) : bool :=
  String.eqb (substring (String.length a - 1) 1 a) "/".

(** [posixpath.join] of two components. *)
Definition join (a b : string) : string :=
  if String.prefix "/" b then b
  else if String.eqb a "" || ends_with_slash a then (a ++ b)%string
  else (a ++ "/" ++ b)%string.

Definition makedirs (p : string) (exist_ok : bool) (w : DemoWorld)
  : result unit * DemoWorld :=
  if py_in p (dirs w) then
    if exist_ok then (Ok tt, w) else (Raise (OtherError "FileExistsError"), w)
  else (Ok tt, with_dirs w (p :: dirs w)).

Definition hub_tokenizer (name : string) (w : DemoWorld)
  : result Tokenizer * DemoWorld :=
  if String.eqb name "t5-small" then
    (Ok {| eos_token := Some "</s>"; pad_token := Some "<pad>";
           padding_side := "right"; vocab := ["<pad>"; "</s>"; "<unk>"] |}, w)
  else if String.eqb name "missing" then (Raise (OtherError "OSError"), w)
  else
    (Ok {| eos_token := Some "<|endoftext|>"; pad_token := None;
           padding_side := "right"; vocab := ["a"; "b"; "<|endoftext|>"] |}, w).

Definition hub_model (ty : ModelType) (name : string) (pad : option string)
    (w : DemoWorld) : result Model * DemoWorld :=
  if String.eqb name "missing" then (Raise (OtherError "OSError"), w)
  else
    (Ok {| model_class := ty;
           config := {| pad_token_id := match pad with
                                        | Some s => PyStr s
                                        | None => PyNone
                                        end;
                        eos_token_id := PyInt 2 |};
           num_embeddings := 8 |}, w).

Definition resize (m : Model) (n : nat) (w : DemoWorld)
  : result Model * DemoWorld :=
  (Ok {| model_class := model_class m; config := config m;
         num_embeddings := n |}, w).

Definition registry : list string :=
  ["task_a"; "task_b"; "boom"; "jigsaw_toxicity_pred"].

Definition lookup_task (name : string) (sh : Shared) (d : string)
    (english : option bool) (dir : option string) (w : DemoWorld)
  : result (string * Shared) * DemoWorld :=
  if py_in name registry then (Ok (name, sh), with_rng w (rng w + 1))
  else (Raise (OtherError "KeyError"), w).

Definition run_evaluate (t : string) (sh : Shared) (w : DemoWorld)
  : result Shared * DemoWorld :=
  if String.eqb t "boom" then (Raise (OtherError "RuntimeError"), w)
  else (Ok sh, with_rng w (rng w * 31 + 7)).

Definition write_metrics (t : string) (sh : Shared) (dir : string) (lg : unit)
    (w : DemoWorld) : result Shared * DemoWorld :=
  (Ok sh, with_line w (dir ++ "/" ++ t ++ ".json")%string).

Definition demo_eval_args : EvaluationArguments :=
  {| model_name_or_path := "gpt2";
     eval_tasks := ["task_a"; "task_b"];
     config_name := None;
     tokenizer_name := None;
     tag := Some "run1";
     english_only := Some true;
     data_dir := None |}.

Definition demo_train_args : TrainingArguments :=
  {| device := "cpu"; output_dir := "/tmp/out"; seed := 42 |}.

Definition demo : Externals :=
  {| World := DemoWorld;
     Device := string;
     Logger := unit;
     Task := string;
     parse_args_into_dataclasses :=
       fun w => (Ok (demo_eval_args, demo_train_args), w);
     os_path_exists := fun p w => py_in p (dirs w);
     os_path_isdir := fun p w => py_in p (dirs w);
     os_path_join := join;
     os_makedirs := makedirs;
     torch_device := fun d w => (Ok d, w);
     get_logger := fun w => (Ok tt, w);
     logger_info := fun _ msg w => (Ok tt, with_line w msg);
     AutoTokenizer_from_pretrained := hub_tokenizer;
     from_pretrained := hub_model;
     resize_token_embeddings := resize;
     model_to := fun _ _ w => (Ok tt, w);
     datetime_now_strftime := fun _ w => (Ok (clock w), w);
     from_task_name := lookup_task;
     set_seed := fun z w => (Ok tt, with_rng w z);
     evaluate := run_evaluate;
     save_metrics := write_metrics |}.

Definition w0 : DemoWorld :=
  {| dirs := ["/tmp"; "/data/jigsaw"]; clock := "261103_093000"; rng := 5;
     lines := [] |}.

Definition with_tasks (l : list string) : EvaluationArguments :=
  {| model_name_or_path := "gpt2";
     eval_tasks := l;
     config_name := None;
     tokenizer_name := None;
     tag := Some "run1";
     english_only := Some true;
     data_dir := None |}.

Definition with_tag (t : option string) : EvaluationArguments :=
  {| model_name_or_path := "gpt2";
     eval_tasks := ["task_a"];
     config_name := None;
     tokenizer_name := None;
     tag := t;
     english_only := Some true;
     data_dir := None |}.

(** A model and a tokenizer from two different checkpoints. *)
Definition mixed_args : EvaluationArguments :=
  {| model_name_or_path := "gpt2";
     eval_tasks := ["task_a"];
     config_name := None;
     tokenizer_name := Some "t5-small";
     tag := Some "run1";
     english_only := Some true;
     data_dir := None |}.

(** What [load] hands over for "gpt2". *)
Definition loaded : Shared :=
  {| model := {| model_class := AutoModelForCausalLM;
                 config := {| pad_token_id := PyInt 2; eos_token_id := PyInt 2 |};
                 num_embeddings := 3 |};
     tokenizer := {| eos_token := Some "<|endoftext|>";
                     pad_token := Some "<|endoftext|>";
                     padding_side := "left";
                     vocab := ["a"; "b"; "<|endoftext|>"] |} |}.

(** The run of the two tasks "task_a" and "task_b" under the tag "run1". *)
Definition run_ab : result unit * DemoWorld * list (Event demo) :=
  main_after_parse demo demo_eval_args demo_train_args w0.

(** The loading of a model under a tokenizer of another checkpoint. *)
Definition load_mixed : result Shared * DemoWorld * list (Event demo) :=
  load demo mixed_args "cpu" tt w0.

(** The loop over "task_a" and "task_b", entered as [run_ab] enters it. *)
Definition loop_ab : result Shared * DemoWorld * list (Event demo) :=
  dispatch demo demo_eval_args demo_train_args "cpu" tt "/tmp/out/run1"
    ["task_a"; "task_b"] loaded w0.

(** The loop over a list in which the second task fails. *)
Definition failing_tasks : list string := ["task_a"; "boom"; "task_b"].

(** Arguments that ask for "jigsaw_toxicity_pred" with [data_dir] given. *)
Definition jigsaw_args (d : string) : EvaluationArguments :=
  {| model_name_or_path := "gpt2";
     eval_tasks := ["jigsaw_toxicity_pred"];
     config_name := None;
     tokenizer_name := Some "";
     tag := None;
     english_only := Some false;
     data_dir := Some d |}.

(** The run of [jigsaw_args] on a directory that is there. *)
Definition run_jigsaw : result unit * DemoWorld * list (Event demo) :=
  main_after_parse demo (jigsaw_args "/data/jigsaw") demo_train_args w0.

(** A run that stops in the loader: the hub does not know the model. *)
Definition missing_args : EvaluationArguments :=
  {| model_name_or_path := "missing";
     eval_tasks := ["task_a"];
     config_name := None;
     tokenizer_name := Some "t5-small";
     tag := None;
     english_only := Some true;
     data_dir := None |}.

Definition run_missing : result unit * DemoWorld * list (Event demo) :=
  main_after_parse demo missing_args demo_train_args w0.

(** The run of "task_b" alone. *)
Definition run_b : result unit * DemoWorld * list (Event demo) :=
  main_after_parse demo (with_tasks ["task_b"]) demo_train_args w0.

(** The state of the random generator in which each task is built: the
    name given to the registry and the generator as the call finds it. *)
Definition built_with (l : list (Event demo)) : list (string * Z) :=
  flat_map (fun e : Event demo =>
              match ev_call e with
              | C_from_task_name name _ _ _ _ _ => [(name, rng (ev_pre e))]
              | _ => []
              end) l.

(** The state of the random generator in which each task is evaluated. *)
Definition evaluated_with (l : list (Event demo)) : list (string * Z) :=
  flat_map (fun e : Event demo =>
              match ev_call e with
              | C_evaluate task => [(task, rng (ev_pre e))]
              | _ => []
              end) l.

(** The run of a list whose second task fails. *)
Definition run_failing : result unit * DemoWorld * list (Event demo) :=
  main_after_parse demo (with_tasks failing_tasks) demo_train_args w0.

End Demo.

(** ** Reasoning about runs *)

Section Inversion.

Variable X : Externals.

Lemma ret_run {A} (a : A) w r w' evs :
  @ret X A a w = (r, w', evs) -> r = Ok a /\ w' = w /\ evs = [].
Proof. unfold ret. intros H. inversion H. auto. Qed.

Lemma raise_run {A} e w (r : result A) w' evs :
  @raise X A e w = (r, w', evs) -> r = Raise e /\ w' = w /\ evs = [].
Proof. unfold raise. intros H. inversion H. auto. Qed.

Lemma call_run {A} c (f : World X -> result A * World X) w r w' evs :
  call c f w = (r, w', evs) ->
  f w = (r, w') /\
  evs = [{| ev_call := c; ev_pre := w; ev_exn := raised r; ev_post := w' |}].
Proof.
  unfold call. destruct (f w) as [r0 w1]. intros H. inversion H. auto.
Qed.

(** A sequence either stops at the first exception or runs both parts. *)
Lemma bind_run {A B} (m : M X A) (k : A -> M X B) w r w' evs :
  bind m k w = (r, w', evs) ->
  (exists e, m w = (Raise e, w', evs) /\ r = Raise e) \/
  (exists a w1 l1 l2,
      m w = (Ok a, w1, l1) /\ k a w1 = (r, w', l2) /\ evs = l1 ++ l2).
Proof.
  unfold bind. destruct (m w) as [[[a | e] w1] l1] eqn:Em.
  - destruct (k a w1) as [[r2 w2] l2] eqn:Ek. intros H. inversion H. subst.
    right. exists a, w1, l1, l2. auto.
  - intros H. inversion H. subst. left. exists e. auto.
Qed.

End Inversion.

(** Take a run apart along its sequences, calls and returns. *)
Ltac run_inv H :=
  match type of H with
  | bind _ _ _ = _ =>
      let e := fresh "e" in let a := fresh "a" in let w1 := fresh "w" in
      let l1 := fresh "l" in let l2 := fresh "l" in
      let H1 := fresh "H" in let H2 := fresh "H" in let H3 := fresh "H" in
      apply bind_run in H;
      destruct H as [(e & H1 & H3) | (a & w1 & l1 & l2 & H1 & H2 & H3)];
      [ run_inv H1 | run_inv H1; run_inv H2 ]
  | call _ _ _ = _ =>
      let H1 := fresh "H" in let H2 := fresh "H" in
      apply call_run in H; destruct H as (H1 & H2)
  | ret _ _ = _ =>
      let H1 := fresh "H" in let H2 := fresh "H" in let H3 := fresh "H" in
      apply ret_run in H; destruct H as (H1 & H2 & H3)
  | raise _ _ = _ =>
      let H1 := fresh "H" in let H2 := fresh "H" in let H3 := fresh "H" in
      apply raise_run in H; destruct H as (H1 & H2 & H3)
  | _ => idtac
  end.

Section Runs.

Variable X : Externals.

(** *** Properties of every logged call *)

Lemma all_calls_ret {A} (P : Event X -> Prop) (a : A) : all_calls P (ret a).
Proof. intros w r w' evs H. run_inv H. subst. constructor. Qed.

Lemma all_calls_raise {A} (P : Event X -> Prop) e :
  all_calls P (@raise X A e).
Proof. intros w r w' evs H. run_inv H. subst. constructor. Qed.

Lemma all_calls_call {A} (P : Event X -> Prop) c
    (f : World X -> result A * World X) :
  (forall w r w',
      f w = (r, w') ->
      P {| ev_call := c; ev_pre := w; ev_exn := raised r; ev_post := w' |}) ->
  all_calls P (call c f).
Proof. intros HP w r w' evs H. run_inv H. subst. constructor; auto. Qed.

(** *** Properties of the log as a whole *)

Lemma all_logs_bind {A B} (Q : list (Event X) -> Prop) (m : M X A)
    (k : A -> M X B) :
  local Q -> all_logs Q m -> (forall a, all_logs Q (k a)) ->
  all_logs Q (bind m k).
Proof.
  intros (_ & HQ) Hm Hk w r w' evs H. apply bind_run in H.
  destruct H as [(e & H1 & _) | (a & w1 & l1 & l2 & H1 & H2 & ->)].
  - exact (Hm _ _ _ _ H1).
  - apply HQ; [exact (Hm _ _ _ _ H1) | exact (Hk _ _ _ _ _ H2)].
Qed.

Lemma all_logs_dispatch (Q : list (Event X) -> Prop) eval_args train_args dev
    logger out tasks :
  local Q ->
  (forall t sh, all_logs Q (run_task X eval_args train_args dev logger out t sh)) ->
  forall sh,
    all_logs Q (dispatch X eval_args train_args dev logger out tasks sh).
Proof.
  intros HQ Hrun. induction tasks as [| t ts IH]; intros sh; simpl.
  - intros w r w' evs H. run_inv H. subst. exact (proj1 HQ).
  - apply all_logs_bind; [exact HQ | apply Hrun | intros sh'; apply IH].
Qed.

(** In a log put together from two, a call that cannot be in the first is
    in the second. *)
Lemma split_after (P : Event X -> Prop) l k l1 e l2 :
  l ++ k = l1 ++ e :: l2 -> Forall P l -> ~ P e ->
  exists l1', l1 = l ++ l1' /\ k = l1' ++ e :: l2.
Proof.
  intros H Hl He. symmetry in H. apply app_eq_app in H.
  destruct H as (j & [(-> & Hj) | (Hl1 & Hj)]).
  - exists j. auto.
  - destruct j as [| e1 j]; simpl in Hj.
    + exists []. rewrite app_nil_r in Hl1. subst. rewrite app_nil_r. auto.
    + inversion Hj. subst. exfalso. apply He.
      rewrite Forall_forall in Hl. apply Hl. apply in_elt.
Qed.

Lemma all_calls_bind {A B} (P : Event X -> Prop) (m : M X A) (k : A -> M X B) :
  all_calls P m -> (forall a, all_calls P (k a)) -> all_calls P (bind m k).
Proof.
  intros Hm Hk w r w' evs H. apply bind_run in H.
  destruct H as [(e & H1 & _) | (a & w1 & l1 & l2 & H1 & H2 & ->)].
  - eapply Hm; eauto.
  - apply Forall_app. split; [eapply Hm | eapply Hk]; eauto.
Qed.

Lemma all_calls_dispatch (P : Event X -> Prop) eval_args train_args dev logger
    out tasks :
  (forall t sh, all_calls P (run_task X eval_args train_args dev logger out t sh)) ->
  forall sh,
    all_calls P (dispatch X eval_args train_args dev logger out tasks sh).
Proof.
  intros Hrun. induction tasks as [| t ts IH]; intros sh; simpl.
  - apply all_calls_ret.
  - apply all_calls_bind; [apply Hrun | intros sh'; apply IH].
Qed.

(** *** Exceptions are never caught *)

Lemma uncaught_ret {A} (a : A) : uncaught (@ret X A a).
Proof.
  intros w r w' evs H l1 e l2 x He. run_inv H. subst.
  destruct l1; discriminate.
Qed.

Lemma uncaught_raise {A} e : uncaught (@raise X A e).
Proof.
  intros w r w' evs H l1 e0 l2 x He. run_inv H. subst.
  destruct l1; discriminate.
Qed.

Lemma uncaught_call {A} c (f : World X -> result A * World X) :
  uncaught (call c f).
Proof.
  intros w r w' evs H l1 e l2 x He Hx. run_inv H. subst.
  destruct l1 as [| e1 l1]; simpl in He.
  - inversion He. subst. simpl in *. destruct r; simpl in Hx; inversion Hx.
    auto.
  - inversion He. destruct l1; discriminate.
Qed.

Lemma uncaught_bind {A B} (m : M X A) (k : A -> M X B) :
  uncaught m -> (forall a, uncaught (k a)) -> uncaught (bind m k).
Proof.
  intros Hm Hk w r w' evs H l1 e l2 x He Hx. apply bind_run in H.
  destruct H as [(e0 & H1 & ->) | (a & w1 & k1 & k2 & H1 & H2 & ->)].
  - destruct (Hm _ _ _ _ H1 _ _ _ _ He Hx) as (Hl & Hr & Hw).
    inversion Hr. auto.
  - symmetry in He. apply app_eq_app in He.
    destruct He as (l & [(-> & Hl) | (Hk1 & Hl)]).
    + exact (Hk a _ _ _ _ H2 _ _ _ _ Hl Hx).
    + destruct l as [| e1 l]; simpl in Hl.
      * exact (Hk a _ _ _ _ H2 [] _ _ _ (eq_sym Hl) Hx).
      * inversion Hl. subst e1 l2.
        destruct (Hm _ _ _ _ H1 _ _ _ _ Hk1 Hx) as (_ & Hr & _).
        discriminate.
Qed.

End Runs.

(** ** The checks on the arguments *)

Section Checks.

Variable X : Externals.

Lemma py_in_In x l : py_in x l = true <-> In x l.
Proof.
  unfold py_in. rewrite existsb_exists. split.
  - intros (y & Hy & E). apply String.eqb_eq in E. subst. exact Hy.
  - intros H. exists x. split; [exact H | apply String.eqb_refl].
Qed.

Lemma py_in_not_In x l : py_in x l = false <-> ~ In x l.
Proof.
  rewrite <- py_in_In. destruct (py_in x l); split; intros H;
    try reflexivity; try discriminate; try (intros H'; discriminate).
  exfalso. apply H. reflexivity.
Qed.

(** What [check_args] does, case by case. *)
Lemma check_args_cases eval_args w :
  check_args X eval_args w =
  match eval_tasks eval_args with
  | [] => (Raise (ValueError msg_no_task), w, [])
  | _ :: _ =>
      if py_in jigsaw (eval_tasks eval_args) then
        match data_dir eval_args with
        | None => (Raise (ValueError msg_no_data_dir), w, [])
        | Some d =>
            if os_path_exists X d w then (Ok tt, w, [exists_event X d w])
            else (Raise (ValueError msg_data_dir_missing), w, [exists_event X d w])
        end
      else (Ok tt, w, [])
  end.
Proof.
  unfold check_args. destruct (eval_tasks eval_args) as [| t ts]; [reflexivity |].
  destruct (py_in jigsaw (t :: ts)); [| reflexivity].
  destruct (data_dir eval_args) as [d |]; [| reflexivity].
  unfold bind, call, exists_event. simpl.
  destruct (os_path_exists X d w); reflexivity.
Qed.

(** When the checks fail, [main] fails the same way: nothing follows them. *)
Lemma main_stops_at_check eval_args train_args w e w' evs :
  check_args X eval_args w = (Raise e, w', evs) ->
  main_after_parse X eval_args train_args w = (Raise e, w', evs).
Proof.
  intros H. unfold main_after_parse, bind. rewrite H. reflexivity.
Qed.

(** C1. With an empty [eval_tasks] the run raises
    [ValueError "Must provide at least one eval task!"] at once: the world
    is untouched and no call has been made, so neither the tokenizer nor
    the model has been asked for. *)
Theorem empty_task_list_is_rejected eval_args train_args w :
  eval_tasks eval_args = [] ->
  main_after_parse X eval_args train_args w
  = (Raise (ValueError msg_no_task), w, []).
Proof.
  intros H. apply main_stops_at_check. rewrite check_args_cases, H.
  reflexivity.
Qed.

(** C2. With "jigsaw_toxicity_pred" among the tasks and a [data_dir] that
    is [None] or does not exist, the run raises a [ValueError]; at most
    [os.path.exists] has been called, so no loading has been attempted. *)
Theorem jigsaw_needs_data_dir eval_args train_args w :
  In jigsaw (eval_tasks eval_args) ->
  data_dir_usable X eval_args w = false ->
  main_after_parse X eval_args train_args w
  = match data_dir eval_args with
    | None => (Raise (ValueError msg_no_data_dir), w, [])
    | Some d => (Raise (ValueError msg_data_dir_missing), w, [exists_event X d w])
    end.
Proof.
  intros Hin Hdir. apply py_in_In in Hin.
  assert (Hc : check_args X eval_args w
               = match data_dir eval_args with
                 | None => (Raise (ValueError msg_no_data_dir), w, [])
                 | Some d => (Raise (ValueError msg_data_dir_missing), w,
                              [exists_event X d w])
                 end).
  { rewrite check_args_cases.
    destruct (eval_tasks eval_args) as [| t ts]; [discriminate |].
    rewrite Hin. unfold data_dir_usable in Hdir.
    destruct (data_dir eval_args) as [d |]; [| reflexivity].
    rewrite Hdir. reflexivity. }
  destruct (data_dir eval_args) as [d |];
    apply main_stops_at_check; exact Hc.
Qed.

End Checks.

Ltac run_clean :=
  simpl in *;
  repeat match goal with
         | H : Ok _ = Ok _ |- _ => inversion H; clear H
         | H : Raise _ = Raise _ |- _ => inversion H; clear H
         | H : Ok _ = Raise _ |- _ => discriminate H
         | H : Raise _ = Ok _ |- _ => discriminate H
         | u : unit |- _ => destruct u
         end;
  subst; simpl in *.

(** Prove a property of every call by following the program's structure. *)
Ltac calls :=
  repeat first
    [ apply all_calls_ret
    | apply all_calls_raise
    | apply all_calls_call; intros; simpl
    | apply all_calls_dispatch; intros; unfold run_task
    | apply all_calls_bind; [| intro]
    | match goal with
      | |- all_calls _ (match ?x with _ => _ end) => destruct x
      end ].

(** ** The loader *)

Section Loader.

Variable X : Externals.

Lemma MODEL_TYPE_cases name :
  (In name seq2seq_names -> MODEL_TYPE name = AutoModelForSeq2SeqLM) /\
  (~ In name seq2seq_names -> MODEL_TYPE name = AutoModelForCausalLM).
Proof.
  unfold MODEL_TYPE. split; intros H.
  - apply py_in_In in H. rewrite H. reflexivity.
  - apply py_in_not_In in H. rewrite H. reflexivity.
Qed.

(** What a successful [load] has gone through. *)
Lemma load_ok eval_args dev logger w sh w' evs :
  load X eval_args dev logger w = (Ok sh, w', evs) ->
  exists tok0 m0 m2 wa wa' wb wb' wc wc',
    AutoTokenizer_from_pretrained X
      (py_or (tokenizer_name eval_args) (model_name_or_path eval_args)) wa
    = (Ok tok0, wa') /\
    from_pretrained X (MODEL_TYPE (model_name_or_path eval_args))
      (model_name_or_path eval_args) (eos_token tok0) wb
    = (Ok m0, wb') /\
    resize_token_embeddings X
      {| model_class := model_class m0;
         config := {| pad_token_id := eos_token_id (config m0);
                      eos_token_id := eos_token_id (config m0) |};
         num_embeddings := num_embeddings m0 |}
      (length (vocab tok0)) wc
    = (Ok m2, wc') /\
    In {| ev_call :=
            C_resize_token_embeddings
              {| model_class := model_class m0;
                 config := {| pad_token_id := eos_token_id (config m0);
                              eos_token_id := eos_token_id (config m0) |};
                 num_embeddings := num_embeddings m0 |}
              (length (vocab tok0));
          ev_pre := wc; ev_exn := None; ev_post := wc' |} evs /\
    sh = {| model := m2;
            tokenizer := {| eos_token := eos_token tok0;
                            pad_token := eos_token tok0;
                            padding_side := "left";
                            vocab := vocab tok0 |} |}.
Proof.
  intros H. unfold load in H. run_inv H; run_clean.
  do 9 eexists. repeat split; try eassumption.
  right. right. right. left. reflexivity.
Qed.

(** C6. Whatever the model identifier, the tokenizer [load] hands over has
    its pad token equal to its end-of-sequence token, which is the one the
    hub gave it, and pads on the left. *)
Theorem tokenizer_pads_left_with_eos eval_args dev logger w sh w' evs :
  load X eval_args dev logger w = (Ok sh, w', evs) ->
  pad_token (tokenizer sh) = eos_token (tokenizer sh) /\
  padding_side (tokenizer sh) = "left" /\
  exists tok0 wa wa',
    AutoTokenizer_from_pretrained X
      (py_or (tokenizer_name eval_args) (model_name_or_path eval_args)) wa
    = (Ok tok0, wa') /\
    eos_token (tokenizer sh) = eos_token tok0 /\
    vocab (tokenizer sh) = vocab tok0.
Proof.
  intros H. apply load_ok in H.
  destruct H as (tok0 & m0 & m2 & wa & wa' & wb & wb' & wc & wc'
                 & Ht & _ & _ & _ & ->).
  simpl. repeat split. exists tok0, wa, wa'. auto.
Qed.

(** C8, as the code has it.  The model [load] hands over has its
    [pad_token_id] equal to its own configuration's [eos_token_id], the one
    the hub gave it; [resize_token_embeddings] was called with
    [len(tokenizer)], so, by its contract, the embedding table has that
    size. *)
Theorem model_padding_and_embeddings eval_args dev logger w sh w' evs :
  resize_contract X ->
  load X eval_args dev logger w = (Ok sh, w', evs) ->
  pad_token_id (config (model sh)) = eos_token_id (config (model sh)) /\
  num_embeddings (model sh) = tokenizer_len (tokenizer sh) /\
  (exists m0 wb wb',
      from_pretrained X (MODEL_TYPE (model_name_or_path eval_args))
        (model_name_or_path eval_args) (eos_token (tokenizer sh)) wb
      = (Ok m0, wb') /\
      eos_token_id (config (model sh)) = eos_token_id (config m0)) /\
  (exists m1 e,
      In e evs /\
      ev_call e = C_resize_token_embeddings m1 (tokenizer_len (tokenizer sh)) /\
      pad_token_id (config m1) = eos_token_id (config m1)).
Proof.
  intros Hres H. apply load_ok in H.
  destruct H as (tok0 & m0 & m2 & wa & wa' & wb & wb' & wc & wc'
                 & Ht & Hm & Hr & Hin & ->).
  destruct (Hres _ _ _ _ _ Hr) as (Hc & Hn). simpl.
  unfold tokenizer_len. simpl. rewrite Hc. simpl.
  repeat split; auto.
  - exists m0, wb, wb'. auto.
  - eexists. eexists. split; [exact Hin |]. simpl. split; reflexivity.
Qed.

End Loader.

(** Prove that a program catches nothing by following its structure. *)
Ltac no_catch :=
  repeat first
    [ apply uncaught_ret
    | apply uncaught_raise
    | apply uncaught_call
    | apply uncaught_bind; [| intro]
    | match goal with
      | |- uncaught (match ?x with _ => _ end) => destruct x
      end ].

(** ** The loop over the tasks *)

Section Dispatch.

Variable X : Externals.

Lemma uncaught_dispatch eval_args train_args dev logger out tasks :
  forall sh, uncaught (dispatch X eval_args train_args dev logger out tasks sh).
Proof.
  induction tasks as [| t ts IH]; intros sh; simpl.
  - apply uncaught_ret.
  - apply uncaught_bind; [unfold run_task; no_catch | intros sh'; apply IH].
Qed.

Lemma uncaught_main_after_parse eval_args train_args :
  uncaught (main_after_parse X eval_args train_args).
Proof.
  unfold main_after_parse, check_args, load, prepare_output, resolve_tag.
  no_catch; apply uncaught_dispatch.
Qed.

(** The loop stops in the turn that raises. *)
Lemma dispatch_aborts eval_args train_args dev logger out before t after :
  forall sh w sh1 w1 evs1 x w2 evs2,
    dispatch X eval_args train_args dev logger out before sh w = (Ok sh1, w1, evs1) ->
    run_task X eval_args train_args dev logger out t sh1 w1 = (Raise x, w2, evs2) ->
    dispatch X eval_args train_args dev logger out (before ++ t :: after) sh w
    = (Raise x, w2, evs1 ++ evs2).
Proof.
  induction before as [| b bs IH]; intros sh w sh1 w1 evs1 x w2 evs2 Hb Ht.
  - simpl in Hb. run_inv Hb. run_clean. unfold bind. rewrite Ht. reflexivity.
  - simpl in Hb. apply bind_run in Hb.
    destruct Hb as [(e & _ & He) | (a & wa & la & lb & Ha & Hb & ->)];
      [discriminate |].
    simpl. unfold bind at 1. rewrite Ha.
    rewrite (IH _ _ _ _ _ _ _ _ Hb Ht). rewrite app_assoc. reflexivity.
Qed.

(** C9. Nothing is caught.  In a run of [main], before or after the
    arguments are parsed, an exception raised by a call is the last thing
    logged: it is the outcome of the run, and the world is left as that
    call left it.  In the loop, when the turn of a task raises, the loop
    raises the same exception and the log ends with that turn, whatever
    tasks follow in the list. *)
Theorem exceptions_abort_the_run eval_args train_args :
  uncaught (main_after_parse X eval_args train_args) /\
  uncaught (main X) /\
  (forall dev logger out before t after sh w sh1 w1 evs1 x w2 evs2,
      dispatch X eval_args train_args dev logger out before sh w
      = (Ok sh1, w1, evs1) ->
      run_task X eval_args train_args dev logger out t sh1 w1
      = (Raise x, w2, evs2) ->
      dispatch X eval_args train_args dev logger out (before ++ t :: after) sh w
      = (Raise x, w2, evs1 ++ evs2)).
Proof.
  split; [apply uncaught_main_after_parse |]. split.
  - unfold main. apply uncaught_bind; [apply uncaught_call |].
    intros a. apply uncaught_main_after_parse.
  - intros. eapply dispatch_aborts; eassumption.
Qed.

End Dispatch.

(** ** The order of the calls in the loop *)

Section Order.

Variable X : Externals.
Variable eval_args : EvaluationArguments.
Variable train_args : TrainingArguments.
Variable dev : Device X.
Variable logger : Logger X.
Variable out : string.

Lemma run_task_turn t sh w r w' evs :
  run_task X eval_args train_args dev logger out t sh w = (r, w', evs) ->
  turn X eval_args train_args dev logger out t (map ev_call evs) (is_ok r) /\
  (is_ok r = true -> length evs = 5) /\
  nth_error (map ev_call evs) 0
  = Some (C_logger_info logger (benchmarking t)) /\
  forall c, nth_error (map ev_call evs) 1 = Some c ->
            c = C_from_task_name t (model sh) (tokenizer sh) dev
                  (english_only eval_args) (data_dir eval_args).
Proof.
  intros H. unfold run_task in H. run_inv H; run_clean.
  - split; [apply turn_cut_at_log |]. repeat split; try discriminate.
  - split; [apply turn_cut_at_registry |].
    repeat split; try discriminate. intros c Hc. inversion Hc. reflexivity.
  - split; [apply (turn_cut_later X eval_args train_args dev logger out t
                     sh (fst a0) 3); lia |].
    repeat split; try discriminate. intros c Hc. inversion Hc. reflexivity.
  - split; [apply (turn_cut_later X eval_args train_args dev logger out t
                     sh (fst a0) 4); lia |].
    repeat split; try discriminate. intros c Hc. inversion Hc. reflexivity.
  - destruct r as [sh' | x]; simpl.
    + split; [apply (turn_done X eval_args train_args dev logger out t
                       sh (fst a0)) |].
      repeat split. intros c Hc. inversion Hc. reflexivity.
    + split; [apply (turn_cut_later X eval_args train_args dev logger out t
                       sh (fst a0) 5); lia |].
      repeat split; try discriminate. intros c Hc. inversion Hc. reflexivity.
Qed.

Lemma dispatch_turns tasks :
  forall sh w r w' evs,
    dispatch X eval_args train_args dev logger out tasks sh w = (r, w', evs) ->
    turns X eval_args train_args dev logger out tasks (map ev_call evs) (is_ok r).
Proof.
  induction tasks as [| t ts IH]; intros sh w r w' evs H; simpl in H.
  - run_inv H. subst. apply turns_nil.
  - apply bind_run in H.
    destruct H as [(e & H1 & ->) | (a & w1 & l1 & l2 & H1 & H2 & ->)].
    + apply turns_cut. exact (proj1 (run_task_turn _ _ _ _ _ _ H1)).
    + rewrite map_app. apply turns_next.
      * exact (proj1 (run_task_turn _ _ _ _ _ _ H1)).
      * eapply IH; eassumption.
Qed.

(** A loop that completes has gone through all five calls of every task. *)
Lemma turns_complete tasks :
  forall cs,
    turns X eval_args train_args dev logger out tasks cs true ->
    exists rs : list (Shared * Task X),
      length rs = length tasks /\
      cs = flat_map
             (fun p => steps X eval_args train_args dev logger out
                         (fst p) (fst (snd p)) (snd (snd p)))
             (combine tasks rs).
Proof.
  induction tasks as [| t ts IH]; intros cs H; inversion H; subst.
  - exists []. auto.
  - match goal with
    | Ht : turn _ _ _ _ _ _ _ _ true, Hs : turns _ _ _ _ _ _ _ _ true |- _ =>
        inversion Ht; subst; destruct (IH _ Hs) as (rs & Hlen & ->)
    end.
    exists ((sh, task) :: rs). split; [simpl; congruence | reflexivity].
Qed.

End Order.

(** Find the place of a call in an explicit log: [Hk] says that the log
    is [k1 ++ e :: _] and [Hc] what [e] calls. *)
Ltac find_call k1 Hk Hc :=
  let Hhd := fresh "Hhd" in
  let Htl := fresh "Htl" in
  destruct k1 as [| ? k1]; simpl in Hk;
  [ first [ discriminate Hk
          | injection Hk as Hhd Htl; subst; simpl in Hc;
            try discriminate Hc ]
  | first [ discriminate Hk
          | injection Hk as Hhd Htl; subst; find_call k1 Htl Hc ] ].

(** ** The seed *)

Section Seed.

Variable X : Externals.

Lemma seeded_without_evaluate z (l : list (Event X)) :
  Forall (fun e => forall task, ev_call e <> C_evaluate task) l ->
  seeded_evaluations X z l.
Proof.
  intros Hl l1 e l2 task -> Hc. apply Forall_app in Hl.
  destruct Hl as (_ & Hl). inversion Hl; subst.
  exfalso. eapply H1. exact Hc.
Qed.

Lemma seeded_app z (l l' : list (Event X)) :
  seeded_evaluations X z l -> seeded_evaluations X z l' ->
  seeded_evaluations X z (l ++ l').
Proof.
  intros Hl Hl' l1 e l2 task He Hc. symmetry in He. apply app_eq_app in He.
  destruct He as (k & [(-> & Hk) | (Hl1 & Hk)]).
  - destruct (Hl' _ _ _ _ Hk Hc) as (l0 & e0 & -> & H).
    exists (l ++ l0), e0. rewrite app_assoc. auto.
  - destruct k as [| e1 k]; simpl in Hk.
    + destruct (Hl' [] _ _ _ (eq_sym Hk) Hc) as (l0 & e0 & H & _).
      destruct l0; discriminate.
    + inversion Hk. subst e1 l2. exact (Hl _ _ _ _ Hl1 Hc).
Qed.

Lemma seeded_local z : local (seeded_evaluations X z).
Proof.
  split.
  - apply seeded_without_evaluate. constructor.
  - apply seeded_app.
Qed.

Lemma seeded_quiet {A} z (m : M X A) :
  all_calls (fun e => forall task, ev_call e <> C_evaluate task) m ->
  all_logs (seeded_evaluations X z) m.
Proof.
  intros H w r w' evs Hrun. apply seeded_without_evaluate.
  exact (H _ _ _ _ Hrun).
Qed.

Lemma seeded_run_task eval_args train_args dev logger out t sh :
  all_logs (seeded_evaluations X (seed train_args))
    (run_task X eval_args train_args dev logger out t sh).
Proof.
  intros w r w' evs H. unfold run_task in H. run_inv H; run_clean.
  1-3: apply seeded_without_evaluate;
       repeat (constructor; [simpl; intros; discriminate |]); constructor.
  all: intros k1 ev k2 task Hk Hc; find_call k1 Hk Hc;
    eexists [_; _]; eexists; simpl; repeat split; try reflexivity; assumption.
Qed.

End Seed.

(** ** The output directory *)

Section Output.

Variable X : Externals.
Variable eval_args : EvaluationArguments.
Variable train_args : TrainingArguments.

Lemma dirs_made_app (l l' : list (Event X)) :
  dirs_made (l ++ l') = dirs_made l + dirs_made l'.
Proof. unfold dirs_made. rewrite filter_app, length_app. reflexivity. Qed.

Lemma no_dirs_made (l : list (Event X)) :
  Forall (fun e => makes_dir (ev_call e) = false) l -> dirs_made l = 0.
Proof.
  unfold dirs_made. induction 1 as [| e l He _ IH]; simpl; [reflexivity |].
  rewrite He. exact IH.
Qed.

Lemma quiet_no_dirs (l : list (Event X)) :
  Forall quiet l -> Forall (fun e => makes_dir (ev_call e) = false) l.
Proof. apply Forall_impl. intros e (H & _). exact H. Qed.

(** The log of [prepare_output]: no call for a task, one [os.makedirs] at
    most, and one that returned when [prepare_output] returns. *)
Lemma prepare_output_log w ro w' mid :
  prepare_output X eval_args train_args w = (ro, w', mid) ->
  Forall (fun e => task_call (ev_call e) = false) mid /\
  dirs_made mid <= 1 /\
  (is_ok ro = true ->
   exists e0, In e0 mid /\ makes_dir (ev_call e0) = true /\ ev_exn e0 = None).
Proof.
  intros H. unfold prepare_output, resolve_tag in H.
  destruct (tag eval_args) as [t |]; [destruct (String.eqb t "") |];
    run_inv H; run_clean.
  all: split; [repeat constructor |].
  all: split; [unfold dirs_made; simpl; lia |].
  all: intros Hok; try discriminate.
  all: match goal with
       | |- context [ {| ev_call := C_os_makedirs ?p ?b; ev_pre := ?w1;
                         ev_exn := ?x; ev_post := ?w2 |} ] =>
           exists {| ev_call := C_os_makedirs p b; ev_pre := w1;
                     ev_exn := x; ev_post := w2 |}
       end; simpl; auto.
Qed.

(** A run of [main] is a quiet part, then [prepare_output], then the loop,
    which is only entered when [prepare_output] has returned. *)
Lemma main_phases w r w' evs :
  main_after_parse X eval_args train_args w = (r, w', evs) ->
  Forall quiet evs \/
  exists pre w0 ro w1 mid post,
    evs = pre ++ mid ++ post /\
    Forall quiet pre /\
    prepare_output X eval_args train_args w0 = (ro, w1, mid) /\
    Forall (fun e => makes_dir (ev_call e) = false) post /\
    (is_ok ro = false -> post = []).
Proof.
  assert (Hcheck : all_calls quiet (check_args X eval_args)).
  { unfold check_args. calls; split; reflexivity. }
  assert (Hload : forall dev logger, all_calls quiet (load X eval_args dev logger)).
  { intros. unfold load. calls; split; reflexivity. }
  assert (Hloop : forall dev logger out tasks sh,
             all_calls (fun e => makes_dir (ev_call e) = false)
               (dispatch X eval_args train_args dev logger out tasks sh)).
  { intros. calls; reflexivity. }
  intros H. unfold main_after_parse in H.
  apply bind_run in H.
  destruct H as [(e & H1 & _) | (a & wa & la & lb & H1 & H & ->)];
    [left; exact (Hcheck _ _ _ _ H1) |].
  apply Hcheck in H1.
  apply bind_run in H.
  destruct H as [(e & H2 & _) | (dev & wb & lc & ld & H2 & H & ->)];
    [left; apply Forall_app; split; [exact H1 |];
     run_inv H2; subst; repeat constructor |].
  assert (Hc : Forall quiet lc) by (run_inv H2; subst; repeat constructor).
  apply bind_run in H.
  destruct H as [(e & H3 & _) | (logger & wc & le & lf & H3 & H & ->)];
    [left; repeat (apply Forall_app; split); auto;
     run_inv H3; subst; repeat constructor |].
  assert (He : Forall quiet le) by (run_inv H3; subst; repeat constructor).
  apply bind_run in H.
  destruct H as [(e & H4 & _) | (u & wd & lg & lh & H4 & H & ->)];
    [left; repeat (apply Forall_app; split); auto;
     run_inv H4; subst; repeat constructor |].
  assert (Hg : Forall quiet lg) by (run_inv H4; subst; repeat constructor).
  apply bind_run in H.
  destruct H as [(e & H5 & _) | (sh & we & li & lj & H5 & H & ->)];
    [left; repeat (apply Forall_app; split); auto;
     exact (Hload _ _ _ _ _ _ H5) |].
  apply Hload in H5.
  right. exists (la ++ lc ++ le ++ lg ++ li).
  apply bind_run in H.
  destruct H as [(e & H6 & _) | (out & wf & mid & post & H6 & H & ->)].
  - exists we, (Raise e), w', lj, []. rewrite app_nil_r.
    repeat rewrite <- app_assoc. split; [reflexivity |].
    split; [repeat (apply Forall_app; split); auto |].
    split; [exact H6 |]. split; [constructor | reflexivity].
  - exists we, (Ok out), wf, mid, post.
    repeat rewrite <- app_assoc. split; [reflexivity |].
    split; [repeat (apply Forall_app; split); auto |].
    split; [exact H6 |]. split; [| discriminate].
    apply bind_run in H.
    destruct H as [(e & H7 & _) | (sh' & wg & lk & ll & H7 & H & ->)].
    + exact (Hloop _ _ _ _ _ _ _ _ _ H7).
    + run_inv H. subst. rewrite app_nil_r. exact (Hloop _ _ _ _ _ _ _ _ _ H7).
Qed.

Lemma dirs_named_without_makedirs (l : list (Event X)) :
  Forall (fun e => makes_dir (ev_call e) = false) l ->
  dirs_named X eval_args train_args l.
Proof.
  intros Hl l1 e l2 p ok -> Hc. apply Forall_app in Hl.
  destruct Hl as (_ & Hl). inversion Hl as [| ? ? He _]; subst.
  rewrite Hc in He. discriminate.
Qed.

Lemma dirs_named_app (l l' : list (Event X)) :
  dirs_named X eval_args train_args l ->
  dirs_named X eval_args train_args l' ->
  dirs_named X eval_args train_args (l ++ l').
Proof.
  intros Hl Hl' l1 e l2 p ok He Hc. symmetry in He. apply app_eq_app in He.
  destruct He as (k & [(-> & Hk) | (Hl1 & Hk)]).
  - destruct (Hl' _ _ _ _ _ Hk Hc) as (Hok & Hr & Ht).
    split; [exact Hok |]. split; [exact Hr |].
    assert (Hst : stamped X train_args k e p ->
                  stamped X train_args (l ++ k) e p).
    { intros (l0 & e0 & ts & -> & H). exists (l ++ l0), e0, ts.
      rewrite app_assoc. auto. }
    destruct (tag eval_args) as [t |]; [destruct (String.eqb t "") |]; auto.
  - destruct k as [| e1 k]; simpl in Hk.
    + destruct (Hl' [] _ _ _ _ (eq_sym Hk) Hc) as (Hok & Hr & Ht).
      rewrite app_nil_r in Hl1. subst l1.
      split; [exact Hok |]. split; [exact Hr |].
      assert (Hst : stamped X train_args [] e p ->
                    stamped X train_args l e p).
      { intros (l0 & e0 & ts & H & _). destruct l0; discriminate. }
      destruct (tag eval_args) as [t |]; [destruct (String.eqb t "") |]; auto.
    + inversion Hk. subst e1 l2. exact (Hl _ _ _ _ _ Hl1 Hc).
Qed.

Lemma dirs_named_local : local (dirs_named X eval_args train_args).
Proof.
  split.
  - apply dirs_named_without_makedirs. constructor.
  - apply dirs_named_app.
Qed.

Lemma dirs_named_quiet {A} (m : M X A) :
  all_calls (fun e => makes_dir (ev_call e) = false) m ->
  all_logs (dirs_named X eval_args train_args) m.
Proof.
  intros H w r w' evs Hrun. apply dirs_named_without_makedirs.
  exact (H _ _ _ _ Hrun).
Qed.

Lemma dirs_named_prepare_output :
  all_logs (dirs_named X eval_args train_args)
    (prepare_output X eval_args train_args).
Proof.
  intros w r w' evs H. unfold prepare_output, resolve_tag in H.
  unfold dirs_named.
  destruct (tag eval_args) as [t |]; [destruct (String.eqb t "") |];
    run_inv H; run_clean; intros k1 ev k2 p ok Hk Hc; find_call k1 Hk Hc;
    injection Hc as <- <-;
    (split; [reflexivity |]); (split; [eexists; split; eauto |]);
    try reflexivity;
    eexists [], _, _; simpl; repeat split; try reflexivity; eassumption.
Qed.

(** A run of [main] that makes a call for a task has loaded the model and
    the tokenizer, has made the output directory, and is in the loop over
    [eval_args.eval_tasks]: its log is a part without calls for tasks and
    then the log of the loop, and it ends as the loop ends. *)
Lemma main_enters_the_loop w r w' evs :
  main_after_parse X eval_args train_args w = (r, w', evs) ->
  Forall (fun e => task_call (ev_call e) = false) evs \/
  exists dev logger sh out pre w0 rl post,
    evs = pre ++ post /\
    Forall (fun e => task_call (ev_call e) = false) pre /\
    dispatch X eval_args train_args dev logger out (eval_tasks eval_args) sh w0
    = (rl, w', post) /\
    is_ok r = is_ok rl /\
    (exists wa wb la, load X eval_args dev logger wa = (Ok sh, wb, la)) /\
    (exists wa wb la, prepare_output X eval_args train_args wa = (Ok out, wb, la)).
Proof.
  assert (Hcheck : all_calls (fun e => task_call (ev_call e) = false)
                     (check_args X eval_args)).
  { unfold check_args. calls; reflexivity. }
  assert (Hload : forall dev logger,
             all_calls (fun e => task_call (ev_call e) = false)
               (load X eval_args dev logger)).
  { intros. unfold load. calls; reflexivity. }
  assert (Hout : all_calls (fun e => task_call (ev_call e) = false)
                   (prepare_output X eval_args train_args)).
  { unfold prepare_output, resolve_tag. calls; reflexivity. }
  intros H. unfold main_after_parse in H.
  apply bind_run in H.
  destruct H as [(e & H1 & _) | (a & wa & la & lb & H1 & H & ->)];
    [left; exact (Hcheck _ _ _ _ H1) |].
  apply Hcheck in H1.
  apply bind_run in H.
  destruct H as [(e & H2 & _) | (dev & wb & lc & ld & H2 & H & ->)];
    [left; apply Forall_app; split; [exact H1 |];
     run_inv H2; subst; repeat constructor |].
  assert (Hc : Forall (fun e => task_call (ev_call e) = false) lc)
    by (run_inv H2; subst; repeat constructor).
  apply bind_run in H.
  destruct H as [(e & H3 & _) | (logger & wc & le & lf & H3 & H & ->)];
    [left; repeat (apply Forall_app; split); auto;
     run_inv H3; subst; repeat constructor |].
  assert (He : Forall (fun e => task_call (ev_call e) = false) le)
    by (run_inv H3; subst; repeat constructor).
  apply bind_run in H.
  destruct H as [(e & H4 & _) | (u & wd & lg & lh & H4 & H & ->)];
    [left; repeat (apply Forall_app; split); auto;
     run_inv H4; subst; repeat constructor |].
  assert (Hg : Forall (fun e => task_call (ev_call e) = false) lg)
    by (run_inv H4; subst; repeat constructor).
  apply bind_run in H.
  destruct H as [(e & H5 & _) | (sh & we & li & lj & H5 & H & ->)];
    [left; repeat (apply Forall_app; split); auto;
     exact (Hload _ _ _ _ _ _ H5) |].
  pose proof (Hload _ _ _ _ _ _ H5) as Hi.
  apply bind_run in H.
  destruct H as [(e & H6 & _) | (out & wf & mid & post & H6 & H & ->)];
    [left; repeat (apply Forall_app; split); auto;
     exact (Hout _ _ _ _ H6) |].
  pose proof (Hout _ _ _ _ H6) as Hm.
  right. exists dev, logger, sh, out, (la ++ lc ++ le ++ lg ++ li ++ mid), wf.
  apply bind_run in H.
  destruct H as [(e & H7 & ->) | (sh' & wg & lk & ll & H7 & H & ->)].
  - exists (Raise e), post. repeat rewrite <- app_assoc.
    split; [reflexivity |].
    split; [repeat (apply Forall_app; split); auto |].
    split; [exact H7 |]. split; [reflexivity |].
    split; [exists wd, we, li; exact H5 | exists we, wf, mid; exact H6].
  - run_inv H. subst. exists (Ok sh'), lk. rewrite app_nil_r.
    repeat rewrite <- app_assoc. split; [reflexivity |].
    split; [repeat (apply Forall_app; split); auto |].
    split; [exact H7 |]. split; [reflexivity |].
    split; [exists wd, we, li; exact H5 | exists we, wf, mid; exact H6].
Qed.

(** C5, as the code has it.  In every run [os.makedirs] is called at most
    once; a call made for a task comes after an [os.makedirs] that
    returned; [os.makedirs] is called with [exist_ok=True] on the output
    root joined with the tag, which is the tag given when that is a
    non-empty string and otherwise (no tag, or the empty string) the time
    asked of the clock just before in the format "%y%m%d_%H%M%S"; and, by
    the contract of [os.makedirs], a directory that is already there is no
    error. *)
Theorem output_directory w r w' evs :
  main_after_parse X eval_args train_args w = (r, w', evs) ->
  dirs_made evs <= 1 /\
  (forall l1 e l2,
      evs = l1 ++ e :: l2 -> task_call (ev_call e) = true ->
      exists e0, In e0 l1 /\ makes_dir (ev_call e0) = true /\ ev_exn e0 = None) /\
  dirs_named X eval_args train_args evs /\
  (makedirs_contract X ->
   forall l1 e l2 p ok,
     evs = l1 ++ e :: l2 -> ev_call e = C_os_makedirs p ok ->
     os_path_isdir X p (ev_pre e) = true -> ev_exn e = None).
Proof.
  intros H.
  assert (Hnamed : dirs_named X eval_args train_args evs).
  { revert w r w' evs H.
    change (all_logs (dirs_named X eval_args train_args)
              (main_after_parse X eval_args train_args)).
    unfold main_after_parse.
    repeat (match goal with
            | |- all_logs _ (bind _ _) => apply all_logs_bind
            end;
            [ apply dirs_named_local
            | try (apply dirs_named_quiet; unfold check_args, load;
                   calls; reflexivity)
            | intro ]).
    - apply dirs_named_prepare_output.
    - apply dirs_named_quiet. apply all_calls_ret. }
  split; [| split; [| split; [exact Hnamed |]]].
  - destruct (main_phases _ _ _ _ H)
      as [Hq | (pre & w0 & ro & w1 & mid & post & -> & Hpre & Hmid & Hpost & _)].
    + rewrite no_dirs_made; [lia | apply quiet_no_dirs; exact Hq].
    + rewrite !dirs_made_app.
      rewrite (no_dirs_made pre) by (apply quiet_no_dirs; exact Hpre).
      rewrite (no_dirs_made post) by exact Hpost.
      destruct (prepare_output_log _ _ _ _ Hmid) as (_ & Hle & _). lia.
  - intros l1 e l2 He Htask.
    destruct (main_phases _ _ _ _ H)
      as [Hq | (pre & w0 & ro & w1 & mid & post & Hevs & Hpre & Hmid & _ & Hstop)].
    + exfalso. subst evs. apply Forall_app in Hq. destruct Hq as (_ & Hq).
      inversion Hq as [| ? ? (_ & Hno) _]; subst. congruence.
    + destruct (prepare_output_log _ _ _ _ Hmid) as (Hnotask & _ & Hmade).
      rewrite Hevs in He.
      apply (split_after X (fun e => task_call (ev_call e) = false)) in He;
        [| eapply Forall_impl; [| exact Hpre]; intros ? (_ & ?); assumption
         | congruence ].
      destruct He as (k & -> & He).
      apply (split_after X (fun e => task_call (ev_call e) = false)) in He;
        [| exact Hnotask | congruence ].
      destruct He as (k' & -> & He).
      destruct ro as [out | x]; [| rewrite Hstop in He by reflexivity;
                                   destruct k'; discriminate].
      destruct (Hmade eq_refl) as (e0 & Hin & Hdir & Hexn).
      exists e0. split; [| auto].
      apply in_or_app. right. apply in_or_app. left. exact Hin.
  - intros Hcontract l1 e l2 p ok He Hc Hdir.
    destruct (Hnamed _ _ _ _ _ He Hc) as (_ & (r0 & Hr & Hexn) & _).
    destruct (Hcontract _ _ Hdir) as (wn & Hn).
    rewrite Hn in Hr. inversion Hr. subst. exact Hexn.
Qed.

End Output.

(** ** The driver at work

    The statements above, applied to runs in the small world. *)

(** The calls of a run of "task_a" and "task_b" under the tag "run1" with
    the output root "/tmp/out". *)
Example two_tasks_calls :
  fst (fst Demo.run_ab) = Ok tt /\
  map (@ev_call Demo.demo) (snd Demo.run_ab)
  = [ @C_torch_device Demo.demo "cpu";
      C_get_logger;
      @C_logger_info Demo.demo tt "Beginning evaluation on device cpu";
      @C_logger_info Demo.demo tt "Loading model...";
      C_AutoTokenizer_from_pretrained "gpt2";
      C_from_pretrained AutoModelForCausalLM "gpt2" (Some "<|endoftext|>");
      C_resize_token_embeddings
        {| model_class := AutoModelForCausalLM;
           config := {| pad_token_id := PyInt 2; eos_token_id := PyInt 2 |};
           num_embeddings := 8 |} 3;
      @C_model_to Demo.demo (model Demo.loaded) "cpu";
      C_os_makedirs "/tmp/out/run1" true ]
    ++ steps Demo.demo Demo.demo_eval_args Demo.demo_train_args "cpu" tt
         "/tmp/out/run1" "task_a" Demo.loaded "task_a"
    ++ steps Demo.demo Demo.demo_eval_args Demo.demo_train_args "cpu" tt
         "/tmp/out/run1" "task_b" Demo.loaded "task_b".
Proof. split; vm_compute; reflexivity. Qed.

Lemma empty_task_list_is_rejected_witness :
  main_after_parse Demo.demo (Demo.with_tasks []) Demo.demo_train_args Demo.w0
  = (Raise (ValueError msg_no_task), Demo.w0, []).
Proof.
  apply (empty_task_list_is_rejected Demo.demo (Demo.with_tasks [])
           Demo.demo_train_args Demo.w0).
  reflexivity.
Defined.

Lemma jigsaw_needs_data_dir_witness :
  main_after_parse Demo.demo (Demo.with_tasks ["task_a"; "jigsaw_toxicity_pred"])
    Demo.demo_train_args Demo.w0
  = (Raise (ValueError msg_no_data_dir), Demo.w0, []).
Proof.
  apply (jigsaw_needs_data_dir Demo.demo
           (Demo.with_tasks ["task_a"; "jigsaw_toxicity_pred"])
           Demo.demo_train_args Demo.w0).
  - simpl. right. left. reflexivity.
  - reflexivity.
Defined.

Lemma demo_makedirs_contract : makedirs_contract Demo.demo.
Proof.
  intros p w H. exists w. simpl in *. unfold Demo.makedirs. rewrite H.
  reflexivity.
Qed.

Lemma demo_resize_contract : resize_contract Demo.demo.
Proof. intros m n w m' w' H. inversion H. split; reflexivity. Qed.

Lemma output_directory_witness :
  dirs_made (snd Demo.run_ab) <= 1 /\
  dirs_named Demo.demo Demo.demo_eval_args Demo.demo_train_args
    (snd Demo.run_ab) /\
  (forall l1 e l2 p ok,
      snd Demo.run_ab = l1 ++ e :: l2 -> ev_call e = C_os_makedirs p ok ->
      os_path_isdir Demo.demo p (ev_pre e) = true -> ev_exn e = None).
Proof.
  assert (H := output_directory Demo.demo Demo.demo_eval_args
                 Demo.demo_train_args Demo.w0 (fst (fst Demo.run_ab))
                 (snd (fst Demo.run_ab)) (snd Demo.run_ab) eq_refl).
  split; [exact (proj1 H) |].
  split; [exact (proj1 (proj2 (proj2 H))) |].
  exact (proj2 (proj2 (proj2 H)) demo_makedirs_contract).
Defined.

(** The same run once more, in the world the first run left: the directory
    is there already and the run goes through. *)
Example second_run_goes_through :
  os_path_isdir Demo.demo "/tmp/out/run1" (snd (fst Demo.run_ab)) = true /\
  fst (fst (main_after_parse Demo.demo Demo.demo_eval_args
              Demo.demo_train_args (snd (fst Demo.run_ab)))) = Ok tt.
Proof. split; vm_compute; reflexivity. Qed.

(** With the empty string for a tag, the directory is named after the time,
    not after the tag. *)
Lemma empty_tag_is_not_used :
  tag (Demo.with_tag (Some "")) = Some "" /\
  fst (fst (prepare_output Demo.demo (Demo.with_tag (Some ""))
              Demo.demo_train_args Demo.w0))
  = Ok "/tmp/out/261103_093000" /\
  map (@ev_call Demo.demo)
    (snd (prepare_output Demo.demo (Demo.with_tag (Some ""))
            Demo.demo_train_args Demo.w0))
  = [@C_now_strftime Demo.demo "%y%m%d_%H%M%S"; C_os_makedirs "/tmp/out/261103_093000" true] /\
  os_path_join Demo.demo "/tmp/out" "" = "/tmp/out/" /\
  "/tmp/out/261103_093000" <> os_path_join Demo.demo "/tmp/out" "".
Proof.
  repeat split; try (vm_compute; reflexivity). vm_compute. discriminate.
Qed.

Lemma tokenizer_pads_left_with_eos_witness :
  pad_token (tokenizer Demo.loaded) = eos_token (tokenizer Demo.loaded) /\
  padding_side (tokenizer Demo.loaded) = "left".
Proof.
  assert (H : load Demo.demo Demo.demo_eval_args "cpu" tt Demo.w0
              = (Ok Demo.loaded,
                 snd (fst (load Demo.demo Demo.demo_eval_args "cpu" tt Demo.w0)),
                 snd (load Demo.demo Demo.demo_eval_args "cpu" tt Demo.w0)))
    by (vm_compute; reflexivity).
  apply (tokenizer_pads_left_with_eos Demo.demo) in H.
  split; [exact (proj1 H) | exact (proj1 (proj2 H))].
Defined.

Lemma model_padding_and_embeddings_witness :
  pad_token_id (config (model Demo.loaded))
  = eos_token_id (config (model Demo.loaded)) /\
  num_embeddings (model Demo.loaded) = tokenizer_len (tokenizer Demo.loaded).
Proof.
  assert (H : load Demo.demo Demo.demo_eval_args "cpu" tt Demo.w0
              = (Ok Demo.loaded,
                 snd (fst (load Demo.demo Demo.demo_eval_args "cpu" tt Demo.w0)),
                 snd (load Demo.demo Demo.demo_eval_args "cpu" tt Demo.w0)))
    by (vm_compute; reflexivity).
  apply (model_padding_and_embeddings Demo.demo) in H.
  - split; [exact (proj1 H) | exact (proj1 (proj2 H))].
  - exact demo_resize_contract.
Defined.

(** A model loaded under the tokenizer of another checkpoint: the model's
    [pad_token_id] is its own end-of-sequence id, 2, while the tokenizer's
    pad token is "</s>", of id 1. *)
Lemma model_pad_token_is_not_the_tokenizers :
  exists sh,
    fst (fst Demo.load_mixed) = Ok sh /\
    pad_token (tokenizer sh) = Some "</s>" /\
    pad_token_id_of (tokenizer sh) = PyInt 1 /\
    pad_token_id (config (model sh)) = PyInt 2 /\
    pad_token_id (config (model sh)) <> pad_token_id_of (tokenizer sh) /\
    pad_token_id (config (model sh)) <> PyStr "</s>".
Proof.
  eexists. split; [vm_compute; reflexivity |].
  repeat split; try (vm_compute; reflexivity); vm_compute; discriminate.
Qed.

Lemma exceptions_abort_the_run_witness :
  fst (fst (dispatch Demo.demo Demo.demo_eval_args Demo.demo_train_args "cpu" tt
              "/tmp/out/run1" Demo.failing_tasks Demo.loaded Demo.w0))
  = Raise (OtherError "RuntimeError") /\
  map (@ev_call Demo.demo)
    (snd (dispatch Demo.demo Demo.demo_eval_args Demo.demo_train_args "cpu" tt
            "/tmp/out/run1" Demo.failing_tasks Demo.loaded Demo.w0))
  = steps Demo.demo Demo.demo_eval_args Demo.demo_train_args "cpu" tt
      "/tmp/out/run1" "task_a" Demo.loaded "task_a"
    ++ firstn 4 (steps Demo.demo Demo.demo_eval_args Demo.demo_train_args
                   "cpu" tt "/tmp/out/run1" "boom" Demo.loaded "boom").
Proof.
  pose proof (proj2 (proj2 (exceptions_abort_the_run Demo.demo
                              Demo.demo_eval_args Demo.demo_train_args))
                "cpu" tt "/tmp/out/run1" ["task_a"] "boom" ["task_b"]
                Demo.loaded Demo.w0) as H.
  specialize (H _ _ _ _ _ _ eq_refl eq_refl).
  change (["task_a"] ++ "boom" :: ["task_b"]) with Demo.failing_tasks in H.
  rewrite H. split; vm_compute; reflexivity.
Defined.

(** ** More on the checks *)

Section MoreChecks.

Variable X : Externals.

Lemma check_args_outcome eval_args w :
  exists r l,
    check_args X eval_args w = (r, w, l) /\
    is_ok r = acceptable X eval_args w /\
    (forall x, r = Raise x -> check_error x) /\
    (l = [] \/ exists d, data_dir eval_args = Some d /\ l = [exists_event X d w]).
Proof.
  rewrite check_args_cases. unfold acceptable, data_dir_usable, check_error.
  destruct (eval_tasks eval_args) as [| t ts].
  - do 2 eexists. split; [reflexivity |]. repeat split; auto.
    intros x H. inversion H. auto.
  - destruct (py_in jigsaw (t :: ts)); simpl.
    + destruct (data_dir eval_args) as [d |].
      * destruct (os_path_exists X d w); do 2 eexists;
          (split; [reflexivity |]); repeat split; eauto;
          intros x H; inversion H; auto.
      * do 2 eexists. split; [reflexivity |]. repeat split; auto.
        intros x H. inversion H. auto.
    + do 2 eexists. split; [reflexivity |]. repeat split; auto.
      intros x H. discriminate.
Qed.


(** X1. [check_args] never changes the world; it lets the arguments
    through exactly when there is a task and, if "jigsaw_toxicity_pred" is
    among the tasks, [data_dir] is given and exists; it raises nothing but
    its three [ValueError]s; and it calls at most [os.path.exists], once, on
    [data_dir]. *)
Theorem check_args_verdict eval_args w :
  exists r l,
    check_args X eval_args w = (r, w, l) /\
    is_ok r = acceptable X eval_args w /\
    (forall x, r = Raise x -> check_error x) /\
    (l = [] \/ exists d, data_dir eval_args = Some d /\ l = [exists_event X d w]).
Proof. exact (check_args_outcome eval_args w). Qed.

End MoreChecks.

(** ** Where exceptions come from *)

Section Blame.

Variable X : Externals.

Lemma blames_ret {A} (a : A) : blames (@ret X A a).
Proof. intros w r w' evs x H Hr. run_inv H. subst. discriminate. Qed.

Lemma blames_call {A} c (f : World X -> result A * World X) :
  blames (call c f).
Proof.
  intros w r w' evs x H Hr. run_inv H. subst.
  eexists [], _. simpl. repeat split.
Qed.

Lemma blames_bind {A B} (m : M X A) (k : A -> M X B) :
  blames m -> (forall a, blames (k a)) -> blames (bind m k).
Proof.
  intros Hm Hk w r w' evs x H Hr. apply bind_run in H.
  destruct H as [(e & H1 & He) | (a & w1 & l1 & l2 & H1 & H2 & ->)].
  - subst r. inversion Hr. subst. exact (Hm _ _ _ _ _ H1 eq_refl).
  - destruct (Hk _ _ _ _ _ _ H2 Hr) as (l & e & -> & H).
    exists (l1 ++ l), e. rewrite app_assoc. auto.
Qed.

Lemma blames_dispatch eval_args train_args dev logger out tasks :
  forall sh, blames (dispatch X eval_args train_args dev logger out tasks sh).
Proof.
  induction tasks as [| t ts IH]; intros sh; simpl.
  - apply blames_ret.
  - apply blames_bind; [| intros; apply IH].
    unfold run_task.
    repeat first [apply blames_call | apply blames_bind; [| intro]].
Qed.

Lemma clean_when_ok {A} (m : M X A) w a w' evs :
  uncaught m -> m w = (Ok a, w', evs) ->
  Forall (fun e => ev_exn e = None) evs.
Proof.
  intros Hm H. apply Forall_forall. intros e Hin.
  destruct (ev_exn e) as [x |] eqn:Hx; [| reflexivity].
  apply in_split in Hin. destruct Hin as (l1 & l2 & ->).
  destruct (Hm _ _ _ _ H _ _ _ _ eq_refl Hx) as (_ & Hr & _). discriminate.
Qed.

(** X2. A run of [main] raises only what a call raised or what the checks
    raise.  When the run raises [x], either its last call raised [x], or
    the checks rejected the arguments with [x], one of the three
    [ValueError]s, and every call made had returned.  When the run returns,
    every call made has returned. *)
Theorem exceptions_have_a_source eval_args train_args w r w' evs :
  main_after_parse X eval_args train_args w = (r, w', evs) ->
  (forall x, r = Raise x ->
     (exists l e, evs = l ++ [e] /\ ev_exn e = Some x /\ w' = ev_post e) \/
     (check_args X eval_args w = (Raise x, w', evs) /\ check_error x /\
      Forall (fun e => ev_exn e = None) evs)) /\
  (is_ok r = true -> Forall (fun e => ev_exn e = None) evs).
Proof.
  intros H. split.
  - intros x Hr. unfold main_after_parse in H. apply bind_run in H.
    destruct H as [(e & H1 & He) | (a & w1 & l1 & l2 & H1 & H2 & ->)].
    + right. subst r. inversion Hr. subst e.
      destruct (check_args_outcome X eval_args w) as (r0 & l & Hc & _ & Herr & Hl).
      rewrite Hc in H1. inversion H1. subst.
      split; [exact Hc |]. split; [apply Herr; reflexivity |].
      destruct Hl as [-> | (d & _ & ->)]; repeat constructor.
    + left.
      assert (Hb : blames
                (bind (call (C_torch_device (device train_args))
                         (torch_device X (device train_args)))
                   (fun dev =>
                    bind (call C_get_logger (get_logger X))
                      (fun logger =>
                       bind (call (C_logger_info logger
                                     ("Beginning evaluation on device "
                                      ++ device train_args)%string)
                               (logger_info X logger
                                  ("Beginning evaluation on device "
                                   ++ device train_args)%string))
                         (fun _ =>
                          bind (load X eval_args dev logger)
                            (fun sh =>
                             bind (prepare_output X eval_args train_args)
                               (fun out =>
                                bind (dispatch X eval_args train_args dev
                                        logger out (eval_tasks eval_args) sh)
                                  (fun _ => ret tt)))))))).
      { unfold load, prepare_output, resolve_tag.
        repeat first
          [ apply blames_call | apply blames_ret | apply blames_dispatch
          | apply blames_bind; [| intro]
          | match goal with
            | |- blames (match ?x with _ => _ end) => destruct x
            end ]. }
      destruct (Hb _ _ _ _ _ H2 Hr) as (l & e & -> & He).
      exists (l1 ++ l), e. rewrite app_assoc. auto.
  - intros Hok. destruct r as [[] | x]; [| discriminate].
    exact (clean_when_ok _ _ _ _ _ (uncaught_main_after_parse X _ _) H).
Qed.

End Blame.

(** ** The shape of a run *)

Section Shape.

Variable X : Externals.
Variable eval_args : EvaluationArguments.
Variable train_args : TrainingArguments.

Lemma check_args_world w r w' l :
  check_args X eval_args w = (r, w', l) -> w' = w.
Proof.
  intros H. destruct (check_args_outcome X eval_args w) as (r0 & l0 & Hc & _).
  rewrite Hc in H. inversion H. reflexivity.
Qed.

Lemma main_run_shape w r w' evs :
  main_after_parse X eval_args train_args w = (r, w', evs) ->
  run_shape X eval_args train_args w r w' evs.
Proof.
  intros H. unfold main_after_parse in H. unfold run_shape.
  apply bind_run in H.
  destruct H as [(x & H1 & ->) | ([] & w1 & lc & k1 & H1 & H & ->)].
  { pose proof (check_args_world _ _ _ _ H1). subst w'.
    exists (Raise x), evs. auto. }
  pose proof (check_args_world _ _ _ _ H1). subst w1.
  exists (Ok tt), lc. split; [exact H1 |].
  apply bind_run in H.
  destruct H as [(x & H2 & ->) | (dev & w2 & l2 & k2 & H2 & H & ->)];
    run_inv H2; subst.
  { exists (Raise x), w'. auto. }
  exists (Ok dev), w2. split; [assumption |].
  apply bind_run in H.
  destruct H as [(x & H3 & ->) | (logger & w3 & l3 & k3 & H3 & H & ->)];
    run_inv H3; subst.
  { exists (Raise x), w'. auto. }
  exists (Ok logger), w3. split; [assumption |].
  apply bind_run in H.
  destruct H as [(x & H4 & ->) | ([] & w4 & l4 & k4 & H4 & H & ->)];
    run_inv H4; subst.
  { exists (Raise x), w'. auto. }
  exists (Ok tt), w4. split; [assumption |]. cbv zeta.
  apply bind_run in H.
  destruct H as [(x & H5 & ->) | (sh & w5 & ll & k5 & H5 & H & ->)].
  { exists (Raise x), w', k4. repeat rewrite <- app_assoc. auto. }
  exists (Ok sh), w5, ll. split; [exact H5 |].
  apply bind_run in H.
  destruct H as [(x & H6 & ->) | (out & w6 & lo & k6 & H6 & H & ->)].
  { exists (Raise x), w', k5. repeat rewrite <- app_assoc. auto. }
  exists (Ok out), w6, lo. split; [exact H6 |].
  apply bind_run in H.
  destruct H as [(x & H7 & ->) | (sh' & w7 & lt & k7 & H7 & H & ->)].
  { exists (Raise x), k6. repeat rewrite <- app_assoc. auto. }
  run_inv H. subst. exists (Ok sh'), lt. rewrite app_nil_r.
  repeat rewrite <- app_assoc. auto.
Qed.

End Shape.

(** Go through the cases of [run_shape]: where the run stopped. *)
Ltac shape_cases H :=
  let rc := fresh "rc" in let lc := fresh "lc" in
  let rd := fresh "rd" in let rg := fresh "rg" in let rb := fresh "rb" in
  let rl := fresh "rl" in let ro := fresh "ro" in let rt := fresh "rt" in
  let w2 := fresh "w2" in let w3 := fresh "w3" in let w4 := fresh "w4" in
  let w5 := fresh "w5" in let w6 := fresh "w6" in
  let ll := fresh "ll" in let lo := fresh "lo" in let lt := fresh "lt" in
  let dev := fresh "dev" in let logger := fresh "logger" in
  let sh := fresh "sh" in let out := fresh "out" in let x := fresh "x" in
  let Hcheck := fresh "Hcheck" in let Hdev := fresh "Hdev" in
  let Hlogger := fresh "Hlogger" in let Hbegin := fresh "Hbegin" in
  let Hload := fresh "Hload" in let Hout := fresh "Hout" in
  let Hloop := fresh "Hloop" in
  let Hr := fresh "Hr" in let Hw := fresh "Hw" in let Hevs := fresh "Hevs" in
  apply main_run_shape in H; unfold run_shape in H;
  destruct H as (rc & lc & Hcheck & H);
  destruct rc as [[] | x];
  [ destruct H as (rd & w2 & Hdev & H);
    destruct rd as [dev | x];
    [ destruct H as (rg & w3 & Hlogger & H);
      destruct rg as [logger | x];
      [ destruct H as (rb & w4 & Hbegin & H);
        destruct rb as [[] | x];
        [ cbv zeta in H;
          destruct H as (rl & w5 & ll & Hload & H);
          destruct rl as [sh | x];
          [ destruct H as (ro & w6 & lo & Hout & H);
            destruct ro as [out | x];
            [ destruct H as (rt & lt & Hloop & Hevs & Hr)
            | destruct H as (Hr & Hw & Hevs) ]
          | destruct H as (Hr & Hw & Hevs) ]
        | destruct H as (Hr & Hw & Hevs) ]
      | destruct H as (Hr & Hw & Hevs) ]
    | destruct H as (Hr & Hw & Hevs) ]
  | destruct H as (Hr & Hw & Hevs) ].

(** ** One device, one logger *)

Section Context.

Variable X : Externals.
Variable eval_args : EvaluationArguments.
Variable train_args : TrainingArguments.

(** X3. A run that got a device and a logger uses no other: the device
    [torch.device] returned is the one the model is moved to and the one
    every task is given, the logger [get_logger] returned is the one every
    line is logged with and the one every [save_metrics] is given, and the
    registry is given the English-only flag of the arguments.  A run that
    stopped before makes none of these calls. *)
Theorem one_device_one_logger w r w' evs :
  main_after_parse X eval_args train_args w = (r, w', evs) ->
  (is_ok r = false /\
   Forall (fun e => context_call (ev_call e) = false) evs) \/
  (exists dev logger w2 w3,
      torch_device X (device train_args) w = (Ok dev, w2) /\
      get_logger X w2 = (Ok logger, w3) /\
      Forall (in_context X eval_args dev logger) evs).
Proof.
  intros H.
  assert (A1 : all_calls (fun e => context_call (ev_call e) = false)
                 (check_args X eval_args)).
  { unfold check_args. calls; reflexivity. }
  assert (A2 : forall dev logger,
             all_calls (in_context X eval_args dev logger)
               (check_args X eval_args)).
  { intros. unfold check_args. calls;
      unfold in_context; simpl; repeat split; intros; discriminate. }
  assert (A3 : forall dev logger,
             all_calls (in_context X eval_args dev logger)
               (load X eval_args dev logger)).
  { intros. unfold load. calls;
      unfold in_context; simpl; repeat split; intros; try discriminate;
      match goal with
      | E : _ = _ |- _ => inversion E; reflexivity
      end. }
  assert (A4 : forall dev logger,
             all_calls (in_context X eval_args dev logger)
               (prepare_output X eval_args train_args)).
  { intros. unfold prepare_output, resolve_tag. calls;
      unfold in_context; simpl; repeat split; intros; discriminate. }
  assert (A5 : forall dev logger out tasks sh,
             all_calls (in_context X eval_args dev logger)
               (dispatch X eval_args train_args dev logger out tasks sh)).
  { intros. calls;
      unfold in_context; simpl; repeat split; intros; try discriminate;
      match goal with
      | E : _ = _ |- _ => inversion E; reflexivity
      end. }
  shape_cases H; subst.
  - right. exists dev, logger, w2, w3. split; [assumption |].
    split; [assumption |].
    repeat (apply Forall_app; split);
      try (eapply A2; eassumption); try (eapply A3; eassumption);
      try (eapply A4; eassumption); try (eapply A5; eassumption).
    repeat constructor; unfold in_context; simpl; repeat split; intros;
      try discriminate.
    match goal with E : _ = _ |- _ => inversion E; reflexivity end.
  - right. exists dev, logger, w2, w3. split; [assumption |].
    split; [assumption |].
    repeat (apply Forall_app; split);
      try (eapply A2; eassumption); try (eapply A3; eassumption);
      try (eapply A4; eassumption).
    repeat constructor; unfold in_context; simpl; repeat split; intros;
      try discriminate.
    match goal with E : _ = _ |- _ => inversion E; reflexivity end.
  - right. exists dev, logger, w2, w3. split; [assumption |].
    split; [assumption |].
    repeat (apply Forall_app; split);
      try (eapply A2; eassumption); try (eapply A3; eassumption).
    repeat constructor; unfold in_context; simpl; repeat split; intros;
      try discriminate.
    match goal with E : _ = _ |- _ => inversion E; reflexivity end.
  - right. exists dev, logger, w2, w3. split; [assumption |].
    split; [assumption |].
    repeat (apply Forall_app; split); try (eapply A2; eassumption).
    repeat constructor; unfold in_context; simpl; repeat split; intros;
      try discriminate.
    match goal with E : _ = _ |- _ => inversion E; reflexivity end.
  - left. split; [reflexivity |].
    apply Forall_app; split; [eapply A1; eassumption | repeat constructor].
  - left. split; [reflexivity |].
    apply Forall_app; split; [eapply A1; eassumption | repeat constructor].
  - left. split; [reflexivity |]. eapply A1; eassumption.
Qed.

End Context.

(** ** The loader, call by call *)

Section LoaderCalls.

Variable X : Externals.
Variable eval_args : EvaluationArguments.
Variable train_args : TrainingArguments.

Lemma load_log dev logger w sh w' ll :
  load X eval_args dev logger w = (Ok sh, w', ll) ->
  exists m1,
    map ev_call ll = load_calls X eval_args dev logger sh m1 /\
    pad_token_id (config m1) = eos_token_id (config m1) /\
    Forall (fun e => ev_exn e = None) ll.
Proof.
  intros H. unfold load in H. run_inv H; run_clean.
  eexists. split; [reflexivity |]. split; [reflexivity |].
  repeat constructor.
Qed.

(** X4. A [load] that returns has made five calls, each of which returned:
    the line "Loading model...", the tokenizer asked for under
    [tokenizer_name] (the model's name when that is absent or empty), the
    model asked for with the tokenizer's end-of-sequence token as
    [pad_token_id], [resize_token_embeddings] with [len(tokenizer)] on a
    model whose [pad_token_id] is already its [eos_token_id], and [model.to]
    with the device, on the model it hands over. *)
Theorem load_calls_in_order dev logger w sh w' ll :
  load X eval_args dev logger w = (Ok sh, w', ll) ->
  exists m1,
    map ev_call ll = load_calls X eval_args dev logger sh m1 /\
    pad_token_id (config m1) = eos_token_id (config m1) /\
    Forall (fun e => ev_exn e = None) ll.
Proof. exact (load_log dev logger w sh w' ll). Qed.

Lemma count_calls_app (p : Call X -> bool) (l l' : list (Event X)) :
  count_calls p (l ++ l') = count_calls p l + count_calls p l'.
Proof. unfold count_calls. rewrite filter_app, length_app. reflexivity. Qed.

Lemma count_calls_none (p : Call X -> bool) (l : list (Event X)) :
  Forall (fun e => p (ev_call e) = false) l -> count_calls p l = 0.
Proof.
  unfold count_calls. induction 1 as [| e l He _ IH]; simpl; [reflexivity |].
  rewrite He. exact IH.
Qed.

Lemma load_loads_once dev logger w r w' ll :
  load X eval_args dev logger w = (r, w', ll) ->
  count_calls loads_tokenizer ll <= 1 /\ count_calls loads_model ll <= 1.
Proof.
  intros H. unfold load in H. run_inv H; run_clean;
    unfold count_calls; simpl; lia.
Qed.

(** X5. In every run the tokenizer is asked of the hub at most once and
    the model at most once; and when the clock is read, a directory made or
    a call made for a task, both have been asked for before and both calls
    have returned. *)
Theorem loads_once_and_first w r w' evs :
  main_after_parse X eval_args train_args w = (r, w', evs) ->
  count_calls loads_tokenizer evs <= 1 /\
  count_calls loads_model evs <= 1 /\
  forall l1 e l2,
    evs = l1 ++ e :: l2 -> after_load (ev_call e) = true ->
    exists et em,
      In et l1 /\ loads_tokenizer (ev_call et) = true /\ ev_exn et = None /\
      In em l1 /\ loads_model (ev_call em) = true /\ ev_exn em = None.
Proof.
  intros H.
  assert (A1 : all_calls (fun e => loads_tokenizer (ev_call e) = false /\
                                   loads_model (ev_call e) = false /\
                                   after_load (ev_call e) = false)
                 (check_args X eval_args)).
  { unfold check_args. calls; repeat split. }
  assert (A2 : all_calls (fun e => loads_tokenizer (ev_call e) = false /\
                                   loads_model (ev_call e) = false)
                 (prepare_output X eval_args train_args)).
  { unfold prepare_output, resolve_tag. calls; split; reflexivity. }
  assert (A3 : forall dev logger out tasks sh,
             all_calls (fun e => loads_tokenizer (ev_call e) = false /\
                                 loads_model (ev_call e) = false)
               (dispatch X eval_args train_args dev logger out tasks sh)).
  { intros. calls; split; reflexivity. }
  assert (A4 : forall dev logger,
             all_calls (fun e => after_load (ev_call e) = false)
               (load X eval_args dev logger)).
  { intros. unfold load. calls; reflexivity. }
  assert (Hfst : forall l : list (Event X),
             Forall (fun e => loads_tokenizer (ev_call e) = false /\
                              loads_model (ev_call e) = false) l ->
             count_calls loads_tokenizer l = 0 /\ count_calls loads_model l = 0).
  { intros l Hl. split; apply count_calls_none;
      (eapply Forall_impl; [| exact Hl]); intros e (Ht & Hm); assumption. }
  assert (Hweak : forall l : list (Event X),
             Forall (fun e => loads_tokenizer (ev_call e) = false /\
                              loads_model (ev_call e) = false /\
                              after_load (ev_call e) = false) l ->
             Forall (fun e => loads_tokenizer (ev_call e) = false /\
                              loads_model (ev_call e) = false) l /\
             Forall (fun e => after_load (ev_call e) = false) l).
  { intros l Hl. split; (eapply Forall_impl; [| exact Hl]);
      intros e (Ht & Hm & Ha); auto. }
  assert (Hearly : forall l : list (Event X),
             Forall (fun e => after_load (ev_call e) = false) l ->
             forall l1 e l2, l = l1 ++ e :: l2 ->
                             after_load (ev_call e) = true -> False).
  { intros l Hl l1 e l2 -> He. apply Forall_app in Hl.
    destruct Hl as (_ & Hl). inversion Hl; subst. congruence. }
  shape_cases H; subst;
    destruct (Hweak _ (A1 _ _ _ _ Hcheck)) as (Hc1 & Hc2);
    destruct (Hfst _ Hc1) as (Hc3 & Hc4).
  - destruct (load_loads_once _ _ _ _ _ _ Hload) as (Hl1 & Hl2).
    destruct (Hfst _ (A2 _ _ _ _ Hout)) as (Ho1 & Ho2).
    destruct (Hfst _ (A3 _ _ _ _ _ _ _ _ _ Hloop)) as (Ht1 & Ht2).
    rewrite !count_calls_app, Hc3, Hc4, Ho1, Ho2, Ht1, Ht2.
    unfold count_calls at 1 3. simpl.
    split; [lia |]. split; [lia |].
    intros l1 e l2 He Ha.
    rewrite !app_assoc in He. rewrite <- (app_assoc _ lo lt) in He.
    apply (split_after X (fun e => after_load (ev_call e) = false)) in He;
      [| | congruence].
    + destruct He as (k & -> & _).
      destruct (load_log _ _ _ _ _ _ Hload) as (m1 & Hcalls & _ & Hret).
      destruct ll as [| e1 [| e2 [| e3 ll]]]; try discriminate.
      inversion Hcalls as [[Hk1 Hk2 Hk3 Hk4]].
      inversion Hret as [| ? ? _ Hret1]; subst.
      inversion Hret1 as [| ? ? Hx2 Hret2]; subst.
      inversion Hret2 as [| ? ? Hx3 _]; subst.
      exists e2, e3. rewrite Hk2, Hk3. simpl.
      repeat split; auto; apply in_or_app; left; apply in_or_app; right;
        simpl; auto.
    + repeat (apply Forall_app; split);
        first [ assumption | solve [repeat constructor]
              | exact (A4 _ _ _ _ _ _ Hload) ].
  - destruct (load_loads_once _ _ _ _ _ _ Hload) as (Hl1 & Hl2).
    destruct (Hfst _ (A2 _ _ _ _ Hout)) as (Ho1 & Ho2).
    rewrite !count_calls_app, Hc3, Hc4, Ho1, Ho2.
    unfold count_calls at 1 3. simpl.
    split; [lia |]. split; [lia |].
    intros l1 e l2 He Ha.
    rewrite !app_assoc in He.
    apply (split_after X (fun e => after_load (ev_call e) = false)) in He;
      [| | congruence].
    + destruct He as (k & -> & _).
      destruct (load_log _ _ _ _ _ _ Hload) as (m1 & Hcalls & _ & Hret).
      destruct ll as [| e1 [| e2 [| e3 ll]]]; try discriminate.
      inversion Hcalls as [[Hk1 Hk2 Hk3 Hk4]].
      inversion Hret as [| ? ? _ Hret1]; subst.
      inversion Hret1 as [| ? ? Hx2 Hret2]; subst.
      inversion Hret2 as [| ? ? Hx3 _]; subst.
      exists e2, e3. rewrite Hk2, Hk3. simpl.
      repeat split; auto; apply in_or_app; left; apply in_or_app; right;
        simpl; auto.
    + repeat (apply Forall_app; split);
        first [ assumption | solve [repeat constructor]
              | exact (A4 _ _ _ _ _ _ Hload) ].
  - destruct (load_loads_once _ _ _ _ _ _ Hload) as (Hl1 & Hl2).
    rewrite !count_calls_app, Hc3, Hc4.
    unfold count_calls at 1 3. simpl.
    split; [lia |]. split; [lia |].
    intros l1 e l2 He Ha. exfalso. eapply Hearly; [| exact He | exact Ha].
    repeat (apply Forall_app; split);
      first [ assumption | solve [repeat constructor]
            | exact (A4 _ _ _ _ _ _ Hload) ].
  - rewrite !count_calls_app, Hc3, Hc4. unfold count_calls. simpl.
    split; [lia |]. split; [lia |].
    intros l1 e l2 He Ha. exfalso. eapply Hearly; [| exact He | exact Ha].
    apply Forall_app; split; [assumption | repeat constructor].
  - rewrite !count_calls_app, Hc3, Hc4. unfold count_calls. simpl.
    split; [lia |]. split; [lia |].
    intros l1 e l2 He Ha. exfalso. eapply Hearly; [| exact He | exact Ha].
    apply Forall_app; split; [assumption | repeat constructor].
  - rewrite !count_calls_app, Hc3, Hc4. unfold count_calls. simpl.
    split; [lia |]. split; [lia |].
    intros l1 e l2 He Ha. exfalso. eapply Hearly; [| exact He | exact Ha].
    apply Forall_app; split; [assumption | repeat constructor].
  - rewrite Hc3, Hc4. split; [lia |]. split; [lia |].
    intros l1 e l2 He Ha. exfalso. eapply Hearly; [| exact He | exact Ha].
    exact Hc2.
Qed.

End LoaderCalls.

(** ** More on the output directory *)

Section MoreOutput.

Variable X : Externals.
Variable eval_args : EvaluationArguments.
Variable train_args : TrainingArguments.

(** A [prepare_output] that returns has made the directory it returns,
    after reading the clock if a tag had to be made up, and both calls
    have returned. *)
Lemma prepare_output_ok w out w' lo :
  prepare_output X eval_args train_args w = (Ok out, w', lo) ->
  map ev_call lo = tag_calls X eval_args ++ [C_os_makedirs out true] /\
  Forall (fun e => ev_exn e = None) lo /\
  exists e0, In e0 lo /\ ev_call e0 = C_os_makedirs out true /\ ev_exn e0 = None.
Proof.
  intros H. unfold prepare_output, resolve_tag, tag_calls in *.
  destruct (tag eval_args) as [t |]; [destruct (String.eqb t "") |];
    run_inv H; run_clean.
  all: split; [reflexivity |]; split; [repeat constructor |].
  all: match goal with
       | |- context [ {| ev_call := C_os_makedirs ?p ?b; ev_pre := ?w1;
                         ev_exn := ?x; ev_post := ?w2 |} ] =>
           exists {| ev_call := C_os_makedirs p b; ev_pre := w1;
                     ev_exn := x; ev_post := w2 |}
       end; simpl; auto.
Qed.

Lemma prepare_output_clock w r w' lo :
  prepare_output X eval_args train_args w = (r, w', lo) ->
  count_calls reads_clock lo <= length (tag_calls X eval_args).
Proof.
  intros H. unfold prepare_output, resolve_tag, tag_calls in *.
  destruct (tag eval_args) as [t |]; [destruct (String.eqb t "") |];
    run_inv H; run_clean; unfold count_calls; simpl; lia.
Qed.

(** X6. The clock is read only to make up a tag: never when the tag given
    is a non-empty string, and once at most otherwise. *)
Theorem clock_read_only_for_a_tag w r w' evs :
  main_after_parse X eval_args train_args w = (r, w', evs) ->
  count_calls reads_clock evs
  <= match tag eval_args with
     | Some t => if String.eqb t "" then 1 else 0
     | None => 1
     end.
Proof.
  intros H.
  assert (A1 : all_calls (fun e => reads_clock (ev_call e) = false)
                 (check_args X eval_args)).
  { unfold check_args. calls; reflexivity. }
  assert (A2 : forall dev logger,
             all_calls (fun e => reads_clock (ev_call e) = false)
               (load X eval_args dev logger)).
  { intros. unfold load. calls; reflexivity. }
  assert (A3 : forall dev logger out tasks sh,
             all_calls (fun e => reads_clock (ev_call e) = false)
               (dispatch X eval_args train_args dev logger out tasks sh)).
  { intros. calls; reflexivity. }
  assert (Hbound : length (tag_calls X eval_args)
                   = match tag eval_args with
                     | Some t => if String.eqb t "" then 1 else 0
                     | None => 1
                     end).
  { unfold tag_calls. destruct (tag eval_args) as [t |];
      [destruct (String.eqb t "") |]; reflexivity. }
  rewrite <- Hbound.
  shape_cases H; subst; rewrite ?count_calls_app;
    rewrite (count_calls_none X _ lc) by exact (A1 _ _ _ _ Hcheck);
    try rewrite (count_calls_none X _ ll) by exact (A2 _ _ _ _ _ _ Hload);
    try rewrite (count_calls_none X _ lt)
      by exact (A3 _ _ _ _ _ _ _ _ _ Hloop);
    try pose proof (prepare_output_clock _ _ _ _ Hout);
    unfold count_calls in *; simpl; lia.
Qed.

(** X7. Metrics are saved where the directory was made: the directory a
    [save_metrics] is given is one on which [os.makedirs] was called, with
    [exist_ok=True], earlier in the run, and returned. *)
Theorem metrics_go_to_the_directory_made w r w' evs :
  main_after_parse X eval_args train_args w = (r, w', evs) ->
  forall l1 e l2 task dir lg,
    evs = l1 ++ e :: l2 -> ev_call e = C_save_metrics task dir lg ->
    exists e0,
      In e0 l1 /\ ev_call e0 = C_os_makedirs dir true /\ ev_exn e0 = None.
Proof.
  intros H l1 e l2 task dir lg He Hc.
  pose (saves := fun e : Event X =>
                   forall t d g, ev_call e <> C_save_metrics t d g).
  assert (A1 : all_calls saves (check_args X eval_args)).
  { unfold check_args. calls; intros ? ? ?; discriminate. }
  assert (A2 : forall dev logger, all_calls saves (load X eval_args dev logger)).
  { intros. unfold load. calls; intros ? ? ?; discriminate. }
  assert (A3 : all_calls saves (prepare_output X eval_args train_args)).
  { unfold prepare_output, resolve_tag. calls; intros ? ? ?; discriminate. }
  assert (A4 : forall dev logger out tasks sh,
             all_calls (fun e => forall t d g,
                            ev_call e = C_save_metrics t d g -> d = out)
               (dispatch X eval_args train_args dev logger out tasks sh)).
  { intros. calls; intros; try discriminate.
    match goal with E : _ = _ |- _ => inversion E; reflexivity end. }
  assert (Hnone : forall l : list (Event X),
             Forall saves l -> l = l1 ++ e :: l2 -> False).
  { intros l Hl ->. apply Forall_app in Hl. destruct Hl as (_ & Hl).
    inversion Hl as [| ? ? Hs _]; subst. exact (Hs _ _ _ Hc). }
  shape_cases H; subst evs.
  - rewrite !app_assoc in He.
    apply (split_after X saves) in He;
      [| | intros Hs; exact (Hs _ _ _ Hc)].
    + destruct He as (k & -> & He).
      pose proof (A4 _ _ _ _ _ _ _ _ _ Hloop) as Hd.
      rewrite He in Hd. apply Forall_app in Hd. destruct Hd as (_ & Hd).
      inversion Hd as [| ? ? Hout' _]; subst.
      rewrite (Hout' _ _ _ Hc).
      destruct (prepare_output_ok _ _ _ _ Hout) as (_ & _ & e0 & Hin & H0 & Hx).
      exists e0. split; [| auto].
      apply in_or_app. left. apply in_or_app. right. exact Hin.
    + repeat (apply Forall_app; split);
        first [ exact (A1 _ _ _ _ Hcheck) | exact (A2 _ _ _ _ _ _ Hload)
              | exact (A3 _ _ _ _ Hout)
              | repeat constructor; intros ? ? ?; discriminate ].
  - exfalso. eapply Hnone; [| exact He].
    repeat (apply Forall_app; split);
      first [ exact (A1 _ _ _ _ Hcheck) | exact (A2 _ _ _ _ _ _ Hload)
            | exact (A3 _ _ _ _ Hout)
            | repeat constructor; intros ? ? ?; discriminate ].
  - exfalso. eapply Hnone; [| exact He].
    repeat (apply Forall_app; split);
      first [ exact (A1 _ _ _ _ Hcheck) | exact (A2 _ _ _ _ _ _ Hload)
            | repeat constructor; intros ? ? ?; discriminate ].
  - exfalso. eapply Hnone; [| exact He].
    repeat (apply Forall_app; split);
      first [ exact (A1 _ _ _ _ Hcheck)
            | repeat constructor; intros ? ? ?; discriminate ].
  - exfalso. eapply Hnone; [| exact He].
    repeat (apply Forall_app; split);
      first [ exact (A1 _ _ _ _ Hcheck)
            | repeat constructor; intros ? ? ?; discriminate ].
  - exfalso. eapply Hnone; [| exact He].
    repeat (apply Forall_app; split);
      first [ exact (A1 _ _ _ _ Hcheck)
            | repeat constructor; intros ? ? ?; discriminate ].
  - exfalso. eapply Hnone; [| exact He]. exact (A1 _ _ _ _ Hcheck).
Qed.

End MoreOutput.

(** ** More on the loop *)

Section MoreLoop.

Variable X : Externals.
Variable eval_args : EvaluationArguments.
Variable train_args : TrainingArguments.

Lemma bind_assoc {A B C} (m : M X A) (f : A -> M X B) (g : B -> M X C) w :
  bind (bind m f) g w = bind m (fun a => bind (f a) g) w.
Proof.
  unfold bind. destruct (m w) as [[[a | e] w1] l1]; [| reflexivity].
  destruct (f a w1) as [[[b | e] w2] l2]; [| reflexivity].
  destruct (g b w2) as [[r w3] l3]. rewrite app_assoc. reflexivity.
Qed.

Lemma bind_ext {A B} (m : M X A) (f g : A -> M X B) w :
  (forall a w1, f a w1 = g a w1) -> bind m f w = bind m g w.
Proof.
  intros H. unfold bind. destruct (m w) as [[[a | e] w1] l1]; [| reflexivity].
  rewrite H. reflexivity.
Qed.

(** X8. The loop over a list put together from two is the loop over the
    first and then, if that returns, the loop over the second, which starts
    with the model, the tokenizer and the world the first left; when the
    first raises, the second is not entered. *)
Theorem dispatch_app dev logger out tasks1 tasks2 sh w :
  dispatch X eval_args train_args dev logger out (tasks1 ++ tasks2) sh w
  = bind (dispatch X eval_args train_args dev logger out tasks1 sh)
      (dispatch X eval_args train_args dev logger out tasks2) w.
Proof.
  revert sh w. induction tasks1 as [| t ts IH]; intros sh w; simpl.
  - unfold bind, ret.
    destruct (dispatch X eval_args train_args dev logger out tasks2 sh w)
      as [[r w1] l]. reflexivity.
  - rewrite bind_assoc. apply bind_ext. intros sh' w1. apply IH.
Qed.

Lemma resolved_app (l l' : list (Call X)) :
  resolved (l ++ l') = resolved l ++ resolved l'.
Proof. unfold resolved. apply flat_map_app. Qed.

Lemma resolved_none (l : list (Event X)) :
  Forall (fun e => task_call (ev_call e) = false) l ->
  resolved (map ev_call l) = [].
Proof.
  induction 1 as [| e l He _ IH]; simpl; [reflexivity |].
  rewrite IH. destruct (ev_call e); try reflexivity; discriminate.
Qed.

Lemma run_task_resolves dev logger out t sh w r w' evs :
  run_task X eval_args train_args dev logger out t sh w = (r, w', evs) ->
  (resolved (map ev_call evs) = [t] \/
   (resolved (map ev_call evs) = [] /\ is_ok r = false)).
Proof.
  intros H. unfold run_task in H. run_inv H; run_clean; auto.
Qed.

Lemma dispatch_resolves dev logger out tasks :
  forall sh w r w' evs,
    dispatch X eval_args train_args dev logger out tasks sh w = (r, w', evs) ->
    exists rest,
      tasks = resolved (map ev_call evs) ++ rest /\
      (is_ok r = true -> rest = []).
Proof.
  induction tasks as [| t ts IH]; intros sh w r w' evs H; simpl in H.
  - run_inv H. subst. exists []. auto.
  - apply bind_run in H.
    destruct H as [(e & H1 & ->) | (a & w1 & l1 & l2 & H1 & H2 & ->)].
    + destruct (run_task_resolves _ _ _ _ _ _ _ _ _ H1) as [-> | (-> & _)].
      * exists ts. split; [reflexivity | discriminate].
      * exists (t :: ts). split; [reflexivity | discriminate].
    + destruct (run_task_resolves _ _ _ _ _ _ _ _ _ H1) as [Ht | (_ & Hno)];
        [| discriminate].
      destruct (IH _ _ _ _ _ H2) as (rest & Hts & Hrest).
      exists rest. rewrite map_app, resolved_app, Ht. simpl.
      split; [congruence | exact Hrest].
Qed.

(** X9. The tasks given to the registry are the tasks of the list, in the
    order of the list, each as many times as it is listed: in every run the
    names the registry was called with are a beginning of [eval_tasks], and
    the whole of it when the run returns. *)
Theorem resolved_tasks_begin_the_list w r w' evs :
  main_after_parse X eval_args train_args w = (r, w', evs) ->
  exists rest,
    eval_tasks eval_args = resolved (map ev_call evs) ++ rest /\
    (is_ok r = true -> rest = []).
Proof.
  intros H.
  assert (A1 : all_calls (fun e => task_call (ev_call e) = false)
                 (check_args X eval_args)).
  { unfold check_args. calls; reflexivity. }
  assert (A2 : forall dev logger,
             all_calls (fun e => task_call (ev_call e) = false)
               (load X eval_args dev logger)).
  { intros. unfold load. calls; reflexivity. }
  assert (A3 : all_calls (fun e => task_call (ev_call e) = false)
                 (prepare_output X eval_args train_args)).
  { unfold prepare_output, resolve_tag. calls; reflexivity. }
  shape_cases H; subst evs.
  - destruct (dispatch_resolves _ _ _ _ _ _ _ _ _ Hloop) as (rest & Hts & Hrest).
    exists rest. rewrite !map_app, !resolved_app.
    rewrite (resolved_none lc) by exact (A1 _ _ _ _ Hcheck).
    rewrite (resolved_none ll) by exact (A2 _ _ _ _ _ _ Hload).
    rewrite (resolved_none lo) by exact (A3 _ _ _ _ Hout).
    simpl. split; [exact Hts |]. subst r. destruct rt; auto.
  - exists (eval_tasks eval_args). rewrite !map_app, !resolved_app.
    rewrite (resolved_none lc) by exact (A1 _ _ _ _ Hcheck).
    rewrite (resolved_none ll) by exact (A2 _ _ _ _ _ _ Hload).
    rewrite (resolved_none lo) by exact (A3 _ _ _ _ Hout).
    subst r. split; [reflexivity | discriminate].
  - exists (eval_tasks eval_args). rewrite !map_app, !resolved_app.
    rewrite (resolved_none lc) by exact (A1 _ _ _ _ Hcheck).
    rewrite (resolved_none ll) by exact (A2 _ _ _ _ _ _ Hload).
    subst r. split; [reflexivity | discriminate].
  - exists (eval_tasks eval_args). rewrite !map_app, !resolved_app.
    rewrite (resolved_none lc) by exact (A1 _ _ _ _ Hcheck).
    subst r. split; [reflexivity | discriminate].
  - exists (eval_tasks eval_args). rewrite !map_app, !resolved_app.
    rewrite (resolved_none lc) by exact (A1 _ _ _ _ Hcheck).
    subst r. split; [reflexivity | discriminate].
  - exists (eval_tasks eval_args). rewrite !map_app, !resolved_app.
    rewrite (resolved_none lc) by exact (A1 _ _ _ _ Hcheck).
    subst r. split; [reflexivity | discriminate].
  - exists (eval_tasks eval_args).
    rewrite (resolved_none lc) by exact (A1 _ _ _ _ Hcheck).
    subst r. split; [reflexivity | discriminate].
Qed.

(** X10. The whole of a run that returns, call by call: the check of
    [data_dir] when "jigsaw_toxicity_pred" is asked for, the device, the
    logger, the first line, the five calls of the loader, the clock when a
    tag has to be made up, the directory, and then, for every task of the
    list in order, the five calls of its turn, with the device, the logger
    and the directory of this run. *)
Theorem calls_of_a_run_that_returns w w' evs :
  main_after_parse X eval_args train_args w = (Ok tt, w', evs) ->
  exists dev logger sh m1 out (rs : list (Shared * Task X)),
    length rs = length (eval_tasks eval_args) /\
    map ev_call evs
    = check_calls X eval_args
      ++ [C_torch_device (device train_args); C_get_logger;
          C_logger_info logger (begin_msg train_args)]
      ++ load_calls X eval_args dev logger sh m1
      ++ tag_calls X eval_args
      ++ [C_os_makedirs out true]
      ++ flat_map
           (fun p => steps X eval_args train_args dev logger out
                       (fst p) (fst (snd p)) (snd (snd p)))
           (combine (eval_tasks eval_args) rs).
Proof.
  intros H. shape_cases H; try discriminate. subst evs.
  destruct rt as [sh' | x]; [| discriminate].
  destruct (load_log _ _ _ _ _ _ _ _ Hload) as (m1 & Hl & _).
  destruct (prepare_output_ok _ _ _ _ _ _ _ Hout) as (Ho & _).
  pose proof (dispatch_turns _ _ _ _ _ _ _ _ _ _ _ _ Hloop) as Ht.
  destruct (turns_complete _ _ _ _ _ _ _ _ Ht) as (rs & Hlen & Hcalls).
  exists dev, logger, sh, m1, out, rs. split; [exact Hlen |].
  rewrite !map_app, Hl, Ho, Hcalls. simpl. rewrite <- !app_assoc. simpl.
  f_equal. rewrite check_args_cases in Hcheck. unfold check_calls.
  destruct (eval_tasks eval_args) as [| t ts]; [discriminate |].
  destruct (py_in jigsaw (t :: ts)).
  - destruct (data_dir eval_args) as [d |]; [| discriminate].
    destruct (os_path_exists X d w); inversion Hcheck. reflexivity.
  - inversion Hcheck. reflexivity.
Qed.

(** X11. The tokenizer is asked for under [tokenizer_name] when that is a
    non-empty string and under the model's name otherwise, in every run. *)
Theorem tokenizer_asked_by_name w r w' evs :
  main_after_parse X eval_args train_args w = (r, w', evs) ->
  Forall (fun e => forall name,
              ev_call e = C_AutoTokenizer_from_pretrained name ->
              match tokenizer_name eval_args with
              | Some t =>
                  if String.eqb t "" then name = model_name_or_path eval_args
                  else name = t
              | None => name = model_name_or_path eval_args
              end) evs.
Proof.
  revert w r w' evs.
  change (all_calls
            (fun e : Event X => forall name,
                 ev_call e = C_AutoTokenizer_from_pretrained name ->
                 match tokenizer_name eval_args with
                 | Some t =>
                     if String.eqb t "" then name = model_name_or_path eval_args
                     else name = t
                 | None => name = model_name_or_path eval_args
                 end)
            (main_after_parse X eval_args train_args)).
  unfold main_after_parse, check_args, load, prepare_output, resolve_tag.
  calls; try discriminate.
  match goal with E : _ = _ |- _ => inversion E end.
  unfold py_or. destruct (tokenizer_name eval_args) as [t |];
    [destruct (String.eqb t "") |]; reflexivity.
Qed.

End MoreLoop.

(** ** What the run does not depend on *)

Section Unused.

Variable X : Externals.

Lemma dispatch_config_name eval_args train_args c dev logger out tasks :
  forall sh w,
    dispatch X (with_config_name eval_args c) train_args dev logger out tasks sh w
    = dispatch X eval_args train_args dev logger out tasks sh w.
Proof.
  induction tasks as [| t ts IH]; intros sh w; simpl; [reflexivity |].
  apply bind_ext. intros sh' w1. apply IH.
Qed.

(** X12. [config_name] is never read: a run is the same, in its outcome,
    its final world and every call it makes, whatever [config_name] is. *)
Theorem config_name_is_ignored eval_args train_args c w :
  main_after_parse X (with_config_name eval_args c) train_args w
  = main_after_parse X eval_args train_args w.
Proof.
  unfold main_after_parse.
  apply bind_ext. intros _ w1.
  apply bind_ext. intros dev w2.
  apply bind_ext. intros logger w3.
  apply bind_ext. intros _ w4.
  apply bind_ext. intros sh w5.
  apply bind_ext. intros out w6.
  unfold bind. rewrite dispatch_config_name. reflexivity.
Qed.

End Unused.

(** ** The further statements at work *)

Lemma exceptions_have_a_source_witness :
  (exists l e,
      snd Demo.run_failing = l ++ [e] /\
      ev_exn e = Some (OtherError "RuntimeError") /\
      snd (fst Demo.run_failing) = ev_post e) \/
  (check_args Demo.demo (Demo.with_tasks Demo.failing_tasks) Demo.w0
   = (Raise (OtherError "RuntimeError"), snd (fst Demo.run_failing),
      snd Demo.run_failing) /\
   check_error (OtherError "RuntimeError") /\
   Forall (fun e => ev_exn e = None) (snd Demo.run_failing)).
Proof.
  refine (proj1 (exceptions_have_a_source Demo.demo
                   (Demo.with_tasks Demo.failing_tasks) Demo.demo_train_args
                   Demo.w0 (Raise (OtherError "RuntimeError"))
                   (snd (fst Demo.run_failing)) (snd Demo.run_failing) _)
            (OtherError "RuntimeError") eq_refl).
  vm_compute. reflexivity.
Defined.

Lemma one_device_one_logger_witness :
  (is_ok (fst (fst Demo.run_ab)) = false /\
   Forall (fun e => context_call (ev_call e) = false) (snd Demo.run_ab)) \/
  (exists dev logger w2 w3,
      torch_device Demo.demo "cpu" Demo.w0 = (Ok dev, w2) /\
      get_logger Demo.demo w2 = (Ok logger, w3) /\
      Forall (in_context Demo.demo Demo.demo_eval_args dev logger)
        (snd Demo.run_ab)).
Proof.
  refine (one_device_one_logger Demo.demo Demo.demo_eval_args
            Demo.demo_train_args Demo.w0 (fst (fst Demo.run_ab))
            (snd (fst Demo.run_ab)) (snd Demo.run_ab) _).
  vm_compute. reflexivity.
Defined.

Lemma load_calls_in_order_witness :
  exists m1,
    map ev_call (snd (load Demo.demo Demo.demo_eval_args "cpu" tt Demo.w0))
    = load_calls Demo.demo Demo.demo_eval_args "cpu" tt Demo.loaded m1 /\
    pad_token_id (config m1) = eos_token_id (config m1) /\
    Forall (fun e => ev_exn e = None)
      (snd (load Demo.demo Demo.demo_eval_args "cpu" tt Demo.w0)).
Proof.
  refine (load_calls_in_order Demo.demo Demo.demo_eval_args "cpu" tt Demo.w0
            Demo.loaded
            (snd (fst (load Demo.demo Demo.demo_eval_args "cpu" tt Demo.w0)))
            (snd (load Demo.demo Demo.demo_eval_args "cpu" tt Demo.w0)) _).
  vm_compute. reflexivity.
Defined.

Lemma loads_once_and_first_witness :
  count_calls loads_tokenizer (snd Demo.run_missing) <= 1 /\
  count_calls loads_model (snd Demo.run_missing) <= 1.
Proof.
  assert (H := loads_once_and_first Demo.demo Demo.missing_args
                 Demo.demo_train_args Demo.w0 (fst (fst Demo.run_missing))
                 (snd (fst Demo.run_missing)) (snd Demo.run_missing) eq_refl).
  split; [exact (proj1 H) | exact (proj1 (proj2 H))].
Defined.

Lemma clock_read_only_for_a_tag_witness :
  count_calls reads_clock (snd Demo.run_ab) <= 0.
Proof.
  refine (clock_read_only_for_a_tag Demo.demo Demo.demo_eval_args
            Demo.demo_train_args Demo.w0 (fst (fst Demo.run_ab))
            (snd (fst Demo.run_ab)) (snd Demo.run_ab) _).
  vm_compute. reflexivity.
Defined.

Lemma metrics_go_to_the_directory_made_witness :
  exists e0,
    In e0 (firstn 13 (snd Demo.run_ab)) /\
    ev_call e0 = C_os_makedirs "/tmp/out/run1" true /\
    ev_exn e0 = None.
Proof.
  refine (metrics_go_to_the_directory_made Demo.demo Demo.demo_eval_args
            Demo.demo_train_args Demo.w0 (fst (fst Demo.run_ab))
            (snd (fst Demo.run_ab)) (snd Demo.run_ab) _
            (firstn 13 (snd Demo.run_ab))
            (nth 13 (snd Demo.run_ab)
               (returned Demo.demo C_get_logger Demo.w0 Demo.w0))
            (skipn 14 (snd Demo.run_ab))
            "task_a" "/tmp/out/run1" tt _ _);
    vm_compute; reflexivity.
Defined.

Lemma resolved_tasks_begin_the_list_witness :
  exists rest,
    Demo.failing_tasks
    = resolved (map ev_call (snd Demo.run_failing)) ++ rest /\
    (is_ok (fst (fst Demo.run_failing)) = true -> rest = []).
Proof.
  refine (resolved_tasks_begin_the_list Demo.demo
            (Demo.with_tasks Demo.failing_tasks) Demo.demo_train_args Demo.w0
            (fst (fst Demo.run_failing)) (snd (fst Demo.run_failing))
            (snd Demo.run_failing) _).
  vm_compute. reflexivity.
Defined.

Lemma calls_of_a_run_that_returns_witness :
  exists dev logger sh m1 out (rs : list (Shared * Task Demo.demo)),
    length rs = 1 /\
    map ev_call (snd Demo.run_jigsaw)
    = check_calls Demo.demo (Demo.jigsaw_args "/data/jigsaw")
      ++ [C_torch_device "cpu"; C_get_logger;
          C_logger_info logger (begin_msg Demo.demo_train_args)]
      ++ load_calls Demo.demo (Demo.jigsaw_args "/data/jigsaw") dev logger sh m1
      ++ tag_calls Demo.demo (Demo.jigsaw_args "/data/jigsaw")
      ++ [C_os_makedirs out true]
      ++ flat_map
           (fun p => steps Demo.demo (Demo.jigsaw_args "/data/jigsaw")
                       Demo.demo_train_args dev logger out
                       (fst p) (fst (snd p)) (snd (snd p)))
           (combine ["jigsaw_toxicity_pred"] rs).
Proof.
  refine (calls_of_a_run_that_returns Demo.demo (Demo.jigsaw_args "/data/jigsaw")
            Demo.demo_train_args Demo.w0 (snd (fst Demo.run_jigsaw))
            (snd Demo.run_jigsaw) _).
  vm_compute. reflexivity.
Defined.

Lemma tokenizer_asked_by_name_witness :
  Forall (fun e : Event Demo.demo =>
            forall name,
              ev_call e = C_AutoTokenizer_from_pretrained name ->
              name = "gpt2") (snd Demo.run_jigsaw).
Proof.
  refine (tokenizer_asked_by_name Demo.demo (Demo.jigsaw_args "/data/jigsaw")
            Demo.demo_train_args Demo.w0 (fst (fst Demo.run_jigsaw))
            (snd (fst Demo.run_jigsaw)) (snd Demo.run_jigsaw) _).
  vm_compute. reflexivity.
Defined.

(** The run for "jigsaw_toxicity_pred": the directory of the data is looked
    for first, and the tag comes from the clock. *)
Example jigsaw_run_calls :
  fst (fst Demo.run_jigsaw) = Ok tt /\
  firstn 2 (map (@ev_call Demo.demo) (snd Demo.run_jigsaw))
  = [C_os_path_exists "/data/jigsaw"; C_torch_device "cpu"] /\
  In (C_os_makedirs "/tmp/out/261103_093000" true)
    (map (@ev_call Demo.demo) (snd Demo.run_jigsaw)).
Proof.
  split; [vm_compute; reflexivity |]. split; [vm_compute; reflexivity |].
  vm_compute. do 10 right. left. reflexivity.
Qed.

(** ** The loop, step by step *)

Section Steps.

Variable X : Externals.
Variable eval_args : EvaluationArguments.
Variable train_args : TrainingArguments.
Variable dev : Device X.
Variable logger : Logger X.
Variable out : string.

Lemma run_task_is_turn t sh w r w' evs :
  run_task X eval_args train_args dev logger out t sh w = (r, w', evs) ->
  turn_of X eval_args train_args dev logger out t sh w r w' evs.
Proof.
  intros H. unfold run_task in H. run_inv H; run_clean;
    try match goal with
        | a : (Task X * Shared)%type |- _ => destruct a as [task sh1]
        end; simpl in *.
  - apply turn_line_raises. assumption.
  - apply turn_registry_raises with (w1 := w0); assumption.
  - eapply turn_seed_raises; eassumption.
  - eapply turn_evaluate_raises; eassumption.
  - destruct r as [sh3 | x].
    + eapply turn_returns; eassumption.
    + eapply turn_save_raises; eassumption.
Qed.

Lemma turn_is_run_task t sh w r w' evs :
  turn_of X eval_args train_args dev logger out t sh w r w' evs ->
  run_task X eval_args train_args dev logger out t sh w = (r, w', evs).
Proof.
  intros H. inversion H; subst; unfold run_task, bind, call;
    repeat match goal with
           | E : ?f = (_, _) |- context [?f] => rewrite E; simpl
           end;
    reflexivity.
Qed.

Lemma dispatch_is_loop tasks :
  forall sh w r w' evs,
    dispatch X eval_args train_args dev logger out tasks sh w = (r, w', evs) ->
    loop_of X eval_args train_args dev logger out tasks sh w r w' evs.
Proof.
  induction tasks as [| t ts IH]; intros sh w r w' evs H; simpl in H.
  - run_inv H. subst. apply loop_end.
  - apply bind_run in H.
    destruct H as [(x & H1 & ->) | (sh1 & w1 & l1 & l2 & H1 & H2 & ->)].
    + apply loop_stops. apply run_task_is_turn. exact H1.
    + eapply loop_next; [apply run_task_is_turn; exact H1 | apply IH; exact H2].
Qed.

Lemma loop_is_dispatch tasks sh w r w' evs :
  loop_of X eval_args train_args dev logger out tasks sh w r w' evs ->
  dispatch X eval_args train_args dev logger out tasks sh w = (r, w', evs).
Proof.
  induction 1 as [sh w | t ts sh w sh1 w1 l1 r w' l2 Ht _ IH
                  | t ts sh w x w1 l1 Ht]; simpl.
  - reflexivity.
  - unfold bind. rewrite (turn_is_run_task _ _ _ _ _ _ Ht), IH. reflexivity.
  - unfold bind. rewrite (turn_is_run_task _ _ _ _ _ _ Ht). reflexivity.
Qed.

(** C3. The loop is the turns of the tasks, one after the other in the
    order of the list.  A turn logs the progress line, calls the registry
    with the task's name, the model and the tokenizer as the turn before
    left them (as the loop was given them, for the first), the device, the
    English-only flag and [data_dir], then [set_seed] with the configured
    seed, then [evaluate] on the task the registry returned, then
    [save_metrics] on that task with the output directory and the logger;
    each call is made in the world the call before left, and the turn and
    the loop end at the first exception.  The loop does this and nothing
    else: its outcome, its final world and its log are those of the turns,
    and the other way round. *)
Theorem tasks_run_in_order tasks sh w r w' evs :
  dispatch X eval_args train_args dev logger out tasks sh w = (r, w', evs) <->
  loop_of X eval_args train_args dev logger out tasks sh w r w' evs.
Proof.
  split; [apply dispatch_is_loop | apply loop_is_dispatch].
Qed.

End Steps.

(** ** What follows what *)

Section Followed.

Variable X : Externals.

Lemma followed_without (trigger : Event X -> Prop) next (l : list (Event X)) :
  Forall (fun e => ~ trigger e) l -> followed trigger next l.
Proof.
  intros Hl l1 e l2 -> He. apply Forall_app in Hl. destruct Hl as (_ & Hl).
  inversion Hl as [| ? ? Hn _]; subst. contradiction.
Qed.

Lemma followed_app (trigger : Event X -> Prop) next (l l' : list (Event X)) :
  followed trigger next l -> followed trigger next l' ->
  followed trigger next (l ++ l').
Proof.
  intros Hl Hl' l1 e l2 He Ht. symmetry in He. apply app_eq_app in He.
  destruct He as (k & [(-> & Hk) | (Hl1 & Hk)]).
  - exact (Hl' _ _ _ Hk Ht).
  - destruct k as [| e1 k]; simpl in Hk.
    + exact (Hl' [] _ _ (eq_sym Hk) Ht).
    + inversion Hk. subst e1 l2.
      destruct (Hl _ _ _ Hl1 Ht) as (e2 & l3 & -> & Hn).
      exists e2, (l3 ++ l'). auto.
Qed.

Lemma followed_local (trigger : Event X -> Prop) next :
  local (followed trigger next).
Proof.
  split.
  - apply followed_without. constructor.
  - apply followed_app.
Qed.

Lemma followed_quiet {A} (trigger : Event X -> Prop) next (m : M X A) :
  all_calls (fun e => ~ trigger e) m -> all_logs (followed trigger next) m.
Proof.
  intros H w r w' evs Hrun. apply followed_without. exact (H _ _ _ _ Hrun).
Qed.

End Followed.

(** Prove that every trigger in the log of a program is followed, block by
    block: [quiet] shows that a block has no trigger, [loop] deals with the
    turns of the loop. *)
Ltac follow quiet loop :=
  repeat (match goal with
          | |- all_logs _ (bind _ _) => apply all_logs_bind
          end;
          [ apply followed_local
          | try (apply followed_quiet; quiet)
          | intro ]);
  try (apply all_logs_dispatch; [apply followed_local | intros; loop]);
  try (apply followed_quiet; apply all_calls_ret).

(** ** The seed, again *)

Section SeedAgain.

Variable X : Externals.
Variable eval_args : EvaluationArguments.
Variable train_args : TrainingArguments.

Lemma turn_seeds_after_registry dev logger out t sh :
  all_logs (followed (registry_returned X) (then_seed X (seed train_args)))
    (run_task X eval_args train_args dev logger out t sh).
Proof.
  intros w r w' evs H. unfold run_task in H. run_inv H; run_clean;
    intros k1 ev k2 Hk ((n & m & tk & d & en & dd & Hc) & Hx);
    find_call k1 Hk Hc; simpl in Hx; try discriminate Hx;
    do 2 eexists; (split; [reflexivity |]); split; reflexivity.
Qed.

Lemma turn_evaluates_after_seed dev logger out t sh :
  all_logs (followed (seed_returned X (seed train_args)) (then_evaluate X))
    (run_task X eval_args train_args dev logger out t sh).
Proof.
  intros w r w' evs H. unfold run_task in H. run_inv H; run_clean;
    intros k1 ev k2 Hk (Hc & Hx);
    find_call k1 Hk Hc; simpl in Hx; try discriminate Hx;
    do 2 eexists; (split; [reflexivity |]);
    (split; [eexists; reflexivity | reflexivity]).
Qed.

Lemma run_task_counts dev logger out t sh w sh' w' evs :
  run_task X eval_args train_args dev logger out t sh w = (Ok sh', w', evs) ->
  count_calls seeds evs = 1 /\ count_calls evaluates evs = 1.
Proof.
  intros H. unfold run_task in H. run_inv H; run_clean. split; reflexivity.
Qed.

Lemma dispatch_counts dev logger out tasks :
  forall sh w sh' w' evs,
    dispatch X eval_args train_args dev logger out tasks sh w
    = (Ok sh', w', evs) ->
    count_calls seeds evs = length tasks /\
    count_calls evaluates evs = length tasks.
Proof.
  induction tasks as [| t ts IH]; intros sh w sh' w' evs H; simpl in H.
  - run_inv H. subst. split; reflexivity.
  - apply bind_run in H.
    destruct H as [(x & _ & Hx) | (sh1 & w1 & l1 & l2 & H1 & H2 & ->)];
      [discriminate |].
    destruct (run_task_counts _ _ _ _ _ _ _ _ _ H1) as (Hs & He).
    destruct (IH _ _ _ _ _ H2) as (Hs' & He').
    rewrite !count_calls_app, Hs, He, Hs', He'. simpl. split; reflexivity.
Qed.

(** C4, as the code has it.  In every run the seed is set between the
    building of a task and its evaluation.  A registry call that returned
    is followed at once by [set_seed] with the configured seed, made in the
    world the registry left; a [set_seed] that returned is followed at once
    by an [evaluate], made in the world [set_seed] left; and no [evaluate]
    comes otherwise.  A run that returns has set the seed and evaluated
    once for every task of the list.  So whatever [set_seed] determines
    from its argument alone has, when a task starts to be evaluated, the
    value the configured seed gives it, wherever the task is in the list
    and whatever ran before.  Nothing is said of the building of the task,
    which comes before the seed is set. *)
Theorem seed_reset_before_each_evaluate w r w' evs :
  main_after_parse X eval_args train_args w = (r, w', evs) ->
  seeded_evaluations X (seed train_args) evs /\
  followed (registry_returned X) (then_seed X (seed train_args)) evs /\
  followed (seed_returned X (seed train_args)) (then_evaluate X) evs /\
  (is_ok r = true ->
   count_calls seeds evs = length (eval_tasks eval_args) /\
   count_calls evaluates evs = length (eval_tasks eval_args)) /\
  forall (R : Type) (obs : World X -> R) (gen : Z -> R),
    (forall z wa wb, set_seed X z wa = (Ok tt, wb) -> obs wb = gen z) ->
    forall l1 e l2 task,
      evs = l1 ++ e :: l2 -> ev_call e = C_evaluate task ->
      obs (ev_pre e) = gen (seed train_args).
Proof.
  intros H.
  assert (Hs : seeded_evaluations X (seed train_args) evs).
  { revert w r w' evs H.
    change (all_logs (seeded_evaluations X (seed train_args))
              (main_after_parse X eval_args train_args)).
    unfold main_after_parse.
    repeat (match goal with
            | |- all_logs _ (bind _ _) => apply all_logs_bind
            end;
            [ apply seeded_local
            | try (apply seeded_quiet;
                   unfold check_args, load, prepare_output, resolve_tag;
                   calls; intros; discriminate)
            | intro ]).
    - apply all_logs_dispatch; [apply seeded_local |].
      intros. apply seeded_run_task.
    - apply seeded_quiet. apply all_calls_ret. }
  split; [exact Hs |]. split; [| split; [| split]].
  - revert w r w' evs H Hs. intros w r w' evs H _. revert w r w' evs H.
    change (all_logs (followed (registry_returned X)
                        (then_seed X (seed train_args)))
              (main_after_parse X eval_args train_args)).
    unfold main_after_parse.
    follow ltac:(unfold check_args, load, prepare_output, resolve_tag;
                 calls; intros ((n & m & tk & d & en & dd & Hc) & _);
                 discriminate)
           ltac:(apply turn_seeds_after_registry).
  - revert w r w' evs H Hs. intros w r w' evs H _. revert w r w' evs H.
    change (all_logs (followed (seed_returned X (seed train_args))
                        (then_evaluate X))
              (main_after_parse X eval_args train_args)).
    unfold main_after_parse.
    follow ltac:(unfold check_args, load, prepare_output, resolve_tag;
                 calls; intros (Hc & _); discriminate)
           ltac:(apply turn_evaluates_after_seed).
  - intros Hok.
    assert (A1 : all_calls (fun e => seeds (ev_call e) = false /\
                                     evaluates (ev_call e) = false)
                   (check_args X eval_args)).
    { unfold check_args. calls; split; reflexivity. }
    assert (A2 : forall dev logger,
               all_calls (fun e => seeds (ev_call e) = false /\
                                   evaluates (ev_call e) = false)
                 (load X eval_args dev logger)).
    { intros. unfold load. calls; split; reflexivity. }
    assert (A3 : all_calls (fun e => seeds (ev_call e) = false /\
                                     evaluates (ev_call e) = false)
                   (prepare_output X eval_args train_args)).
    { unfold prepare_output, resolve_tag. calls; split; reflexivity. }
    assert (Hz : forall l : list (Event X),
               Forall (fun e => seeds (ev_call e) = false /\
                                evaluates (ev_call e) = false) l ->
               count_calls seeds l = 0 /\ count_calls evaluates l = 0).
    { intros l Hl. split; apply count_calls_none;
        (eapply Forall_impl; [| exact Hl]); intros e (Ha & Hb); assumption. }
    shape_cases H; subst r; try discriminate. subst evs.
    destruct rt as [sh' | x]; [| discriminate].
    destruct (Hz _ (A1 _ _ _ _ Hcheck)) as (Hc1 & Hc2).
    destruct (Hz _ (A2 _ _ _ _ _ _ Hload)) as (Hl1 & Hl2).
    destruct (Hz _ (A3 _ _ _ _ Hout)) as (Ho1 & Ho2).
    destruct (dispatch_counts _ _ _ _ _ _ _ _ _ Hloop) as (Ht1 & Ht2).
    rewrite !count_calls_app, Hc1, Hc2, Hl1, Hl2, Ho1, Ho2, Ht1, Ht2.
    split; reflexivity.
  - intros R obs gen Hgen l1 e l2 task Hl Hc.
    destruct (Hs _ _ _ _ Hl Hc) as (l0 & e0 & _ & _ & _ & Hset).
    exact (Hgen _ _ _ Hset).
Qed.

End SeedAgain.

(** ** The class of the model *)

Section ModelClass.

Variable X : Externals.
Variable eval_args : EvaluationArguments.

(** Two runs of the same call in the same world are the same. *)
Ltac same_call :=
  repeat match goal with
         | A : ?f = (_, _), B : ?f = (_, _) |- _ =>
             rewrite A in B; inversion B; clear B; subst
         end.

(** Once the line is logged and the tokenizer is there, the loader asks
    for the model. *)
Lemma load_asks_for_model dev logger w w1 tok0 w2 :
  logger_info X logger "Loading model..." w = (Ok tt, w1) ->
  AutoTokenizer_from_pretrained X
    (py_or (tokenizer_name eval_args) (model_name_or_path eval_args)) w1
  = (Ok tok0, w2) ->
  exists r w' ll rm w3,
    load X eval_args dev logger w = (r, w', ll) /\
    asks_for_model X eval_args tok0 w2 rm w3 ll.
Proof.
  intros Hline Htok.
  destruct (load X eval_args dev logger w) as [[r w'] ll] eqn:Hl.
  exists r, w', ll. unfold load in Hl. unfold asks_for_model.
  run_inv Hl; run_clean; same_call; try discriminate;
    do 2 eexists;
    (split; [reflexivity | split; [eassumption | reflexivity]]).
Qed.

(** A loader that returns has asked for the model, and the hub has
    answered. *)
Lemma load_has_asked dev logger w sh w' ll :
  load X eval_args dev logger w = (Ok sh, w', ll) ->
  exists tok0 w2 m0 w3,
    asks_for_model X eval_args tok0 w2 (Ok m0) w3 ll /\
    eos_token tok0 = eos_token (tokenizer sh).
Proof.
  intros H. unfold load in H. unfold asks_for_model.
  run_inv H; run_clean.
  do 4 eexists. split; [split; [eassumption | reflexivity] | reflexivity].
Qed.


End ModelClass.

(** ** [data_dir] on its way to the tasks *)

Section DataDir.

Variable X : Externals.
Variable eval_args : EvaluationArguments.
Variable train_args : TrainingArguments.

Lemma registry_args_app (l l' : list (Call X)) :
  registry_args (l ++ l') = registry_args l ++ registry_args l'.
Proof. unfold registry_args. apply flat_map_app. Qed.

Lemma registry_args_none (l : list (Event X)) :
  Forall (fun e => task_call (ev_call e) = false) l ->
  registry_args (map ev_call l) = [].
Proof.
  induction 1 as [| e l He _ IH]; simpl; [reflexivity |].
  rewrite IH. destruct (ev_call e); try reflexivity; discriminate.
Qed.

Lemma run_task_registry_args dev logger out t sh w r w' evs :
  run_task X eval_args train_args dev logger out t sh w = (r, w', evs) ->
  (registry_args (map ev_call evs) = [(t, data_dir eval_args)] \/
   (registry_args (map ev_call evs) = [] /\ is_ok r = false)).
Proof.
  intros H. unfold run_task in H. run_inv H; run_clean; auto.
Qed.

Lemma dispatch_registry_args dev logger out tasks :
  forall sh w r w' evs,
    dispatch X eval_args train_args dev logger out tasks sh w = (r, w', evs) ->
    exists rest,
      map (fun t => (t, data_dir eval_args)) tasks
      = registry_args (map ev_call evs) ++ rest /\
      (is_ok r = true -> rest = []).
Proof.
  induction tasks as [| t ts IH]; intros sh w r w' evs H; simpl in H.
  - run_inv H. subst. exists []. auto.
  - apply bind_run in H.
    destruct H as [(e & H1 & ->) | (a & w1 & l1 & l2 & H1 & H2 & ->)].
    + destruct (run_task_registry_args _ _ _ _ _ _ _ _ _ H1) as [-> | (-> & _)].
      * exists (map (fun t => (t, data_dir eval_args)) ts).
        split; [reflexivity | discriminate].
      * exists (map (fun t => (t, data_dir eval_args)) (t :: ts)).
        split; [reflexivity | discriminate].
    + destruct (run_task_registry_args _ _ _ _ _ _ _ _ _ H1)
        as [Ht | (_ & Hno)]; [| discriminate].
      destruct (IH _ _ _ _ _ H2) as (rest & Hts & Hrest).
      exists rest. rewrite map_app, registry_args_app, Ht. simpl.
      split; [congruence | exact Hrest].
Qed.

Lemma main_registry_args w r w' evs :
  main_after_parse X eval_args train_args w = (r, w', evs) ->
  exists rest,
    map (fun t => (t, data_dir eval_args)) (eval_tasks eval_args)
    = registry_args (map ev_call evs) ++ rest /\
    (is_ok r = true -> rest = []).
Proof.
  intros H.
  assert (A1 : all_calls (fun e => task_call (ev_call e) = false)
                 (check_args X eval_args)).
  { unfold check_args. calls; reflexivity. }
  assert (A2 : forall dev logger,
             all_calls (fun e => task_call (ev_call e) = false)
               (load X eval_args dev logger)).
  { intros. unfold load. calls; reflexivity. }
  assert (A3 : all_calls (fun e => task_call (ev_call e) = false)
                 (prepare_output X eval_args train_args)).
  { unfold prepare_output, resolve_tag. calls; reflexivity. }
  shape_cases H; subst evs;
    rewrite ?map_app, ?registry_args_app;
    rewrite (registry_args_none lc) by exact (A1 _ _ _ _ Hcheck);
    try rewrite (registry_args_none ll) by exact (A2 _ _ _ _ _ _ Hload);
    try rewrite (registry_args_none lo) by exact (A3 _ _ _ _ Hout);
    simpl.
  - destruct (dispatch_registry_args _ _ _ _ _ _ _ _ _ Hloop)
      as (rest & Hts & Hrest).
    exists rest. split; [exact Hts |]. subst r. destruct rt; auto.
  - eexists. split; [reflexivity |]. subst r. discriminate.
  - eexists. split; [reflexivity |]. subst r. discriminate.
  - eexists. split; [reflexivity |]. subst r. discriminate.
  - eexists. split; [reflexivity |]. subst r. discriminate.
  - eexists. split; [reflexivity |]. subst r. discriminate.
  - eexists. split; [reflexivity |]. subst r. discriminate.
Qed.

Lemma turn_calls_registry dev logger out t sh :
  all_logs (followed (line_returned X) (then_registry X (data_dir eval_args)))
    (run_task X eval_args train_args dev logger out t sh).
Proof.
  intros w r w' evs H. unfold run_task in H. run_inv H; run_clean;
    intros k1 ev k2 Hk ((lg & t0 & Hc) & Hx);
    find_call k1 Hk Hc; simpl in Hx; try discriminate Hx;
    do 2 eexists; (split; [reflexivity |]);
    (split; [| reflexivity]);
    exists logger, t; do 4 eexists; split; reflexivity.
Qed.


End DataDir.

(** ** The statements on the loop at work *)

Lemma tasks_run_in_order_witness :
  loop_of Demo.demo Demo.demo_eval_args Demo.demo_train_args "cpu" tt
    "/tmp/out/run1" ["task_a"; "task_b"] Demo.loaded Demo.w0
    (fst (fst Demo.loop_ab)) (snd (fst Demo.loop_ab)) (snd Demo.loop_ab).
Proof.
  apply (proj1 (tasks_run_in_order Demo.demo Demo.demo_eval_args
                  Demo.demo_train_args "cpu" tt "/tmp/out/run1"
                  ["task_a"; "task_b"] Demo.loaded Demo.w0
                  (fst (fst Demo.loop_ab)) (snd (fst Demo.loop_ab))
                  (snd Demo.loop_ab))).
  vm_compute. reflexivity.
Defined.

Lemma seed_reset_before_each_evaluate_witness :
  seeded_evaluations Demo.demo 42 (snd Demo.run_ab) /\
  count_calls seeds (snd Demo.run_ab) = 2 /\
  count_calls evaluates (snd Demo.run_ab) = 2.
Proof.
  assert (H := seed_reset_before_each_evaluate Demo.demo Demo.demo_eval_args
                 Demo.demo_train_args Demo.w0 (fst (fst Demo.run_ab))
                 (snd (fst Demo.run_ab)) (snd Demo.run_ab) eq_refl).
  split; [exact (proj1 H) |].
  exact (proj1 (proj2 (proj2 (proj2 H))) eq_refl).
Defined.

(** A task is built before the seed is set, in the state the tasks before
    it left the random generator in: "task_b" is built with the generator
    at 1309 when it comes after "task_a", and at 5, the state the run
    started in, when it comes first; it is evaluated with the generator at
    42, the seed, both times. *)
Lemma task_is_built_before_the_seed :
  Demo.built_with (snd Demo.run_ab) = [("task_a", 5%Z); ("task_b", 1309%Z)] /\
  Demo.built_with (snd Demo.run_b) = [("task_b", 5%Z)] /\
  Demo.evaluated_with (snd Demo.run_ab) = [("task_a", 42%Z); ("task_b", 42%Z)] /\
  Demo.evaluated_with (snd Demo.run_b) = [("task_b", 42%Z)].
Proof. repeat split; vm_compute; reflexivity. Qed.


